(** * DICOMetaExtractor (v32): resumable parallel metadata extraction

    A shallow embedding of [DICOMetaExtractor_v32.py] and the properties of
    its checkpointed pipeline: stringification of decoded values, per-file
    failure isolation, partial-result persistence, the checkpoint store and
    the merge stage.

    Conventions.
    - Python [str] is [string]; [bytes] is [list Byte.byte]; a [dict] is an
      association list in insertion order; a [set] of identifiers is a
      [gset]; a directory is a [gmap] from file name to content.
    - Code that raises is embedded in an outcome type that keeps the
      effects performed before the exception.
    - Library calls whose result the program only passes along
      ([pydicom], [json.dumps] on decoded values, [str]) are section
      variables. *)

From Stdlib Require Import ZArith Ascii String List Lia Permutation.
From stdpp Require Import base list strings gmap sorting pretty.

Set Warnings "-register-all,-clear-no-such-hyp".

Local Open Scope string_scope.
Local Open Scope list_scope.

(** * Part I: the program *)

(** ** Python strings *)

Module Str.

(** [s.endswith(suf)] *)
Fixpoint endswith (s suf : string) : bool :=
  if String.eqb s suf then true
  else match s with
       | EmptyString => false
       | String _ s' => endswith s' suf
       end.

(** [s.startswith(pre)] *)
Fixpoint startswith (s pre : string) {struct pre} : bool :=
  match pre with
  | EmptyString => true
  | String c pre' =>
      match s with
      | EmptyString => false
      | String d s' => Ascii.eqb c d && startswith s' pre'
      end
  end.

(** [os.path.join(a, b)] of [posixpath], two arguments. *)
Definition os_path_join (a b : string) : string :=
  if startswith b "/" then b
  else if String.eqb a "" || endswith a "/" then a +:+ b
  else a +:+ "/" +:+ b.

End Str.

(** ** Exceptions

    Only subclasses of [Exception] are represented: they are what
    [except Exception] catches.  [sys.exit] is a separate outcome. *)

Inductive exn_class :=
| FileNotFoundError
| JSONDecodeError
| TypeError
| OtherError (name : string).

Record exn := Exn { exn_cls : exn_class; exn_msg : string }.

(** Result of a call that touches no state. *)
Inductive res (A : Type) :=
| Returns (a : A)
| Raises (e : exn).
Arguments Returns {A} a.
Arguments Raises {A} e.

#[global] Instance exn_class_eq_dec : EqDecision exn_class.
Proof. solve_decision. Defined.
#[global] Instance exn_eq_dec : EqDecision exn.
Proof. solve_decision. Defined.

(** ** Python dictionaries with [str] keys, in insertion order *)

Abbreviation dict V := (list (string * V)).

Fixpoint dict_get {V} (k : string) (d : dict V) : option V :=
  match d with
  | [] => None
  | (k', v) :: d' => if String.eqb k' k then Some v else dict_get k d'
  end.

(** [d[k] = v]: overwrite in place, or append a new key. *)
Fixpoint dict_set {V} (k : string) (v : V) (d : dict V) : dict V :=
  match d with
  | [] => [(k, v)]
  | (k', v') :: d' =>
      if String.eqb k' k then (k, v) :: d' else (k', v') :: dict_set k v d'
  end.

Definition dict_keys {V} (d : dict V) : list string := map fst d.

(** A Record of the pipeline: field name to text. *)
Abbreviation Record := (dict string).

(** ** The table of the merge stage

    A [polars] frame is a list of named columns; a cell is text or null. *)

Record series := Series { s_name : string; s_values : list (option string) }.

Definition dataframe := list series.

(** [df.height] *)
Definition df_height (df : dataframe) : nat :=
  match df with
  | [] => 0
  | s :: _ => length (s_values s)
  end.

(** [s.null_count()] *)
Definition null_count (s : series) : nat :=
  length (filter (λ c, c = None) (s_values s)).

(** Keys in order of first appearance. *)
Fixpoint first_seen (seen l : list string) : list string :=
  match l with
  | [] => []
  | k :: l' =>
      if bool_decide (k ∈ seen) then first_seen seen l'
      else k :: first_seen (k :: seen) l'
  end.

(** [pl.from_pandas(pd.DataFrame(all_data))]: one column per key that
    occurs in some record, one row per record, null where a record lacks
    the key. *)
Definition from_records (all_data : list Record) : dataframe :=
  map (λ k, Series k (map (dict_get k) all_data))
      (first_seen [] (flat_map dict_keys all_data)).

Definition replace_with_none (value : option string) : option string :=
  if bool_decide (value ∈ [Some ""; Some "N/A"; Some "None"; Some "NONE"; None])
  then None
  else value.

(** [df.with_columns(pl.all().map_elements(f))] *)
Definition map_elements (f : option string → option string) (df : dataframe) : dataframe :=
  map (λ s, Series (s_name s) (map f (s_values s))) df.

(** [df[[s.name for s in df if not (s.null_count() == df.height)]]] *)
Definition drop_null_columns (df : dataframe) : dataframe :=
  filter (λ s, null_count s ≠ df_height df) df.

(** Lines 142-146 of [merge_partial_results_and_cleanup]. *)
Definition final_table (all_data : list Record) : dataframe :=
  drop_null_columns (map_elements replace_with_none (from_records all_data)).

Definition column_names (df : dataframe) : list string := map s_name df.

(** [df[k]] and [df[k][i]], when the frame has them. *)
Definition column (df : dataframe) (k : string) : option series :=
  find (λ s, String.eqb (s_name s) k) df.

Definition cell (df : dataframe) (k : string) (i : nat) : option (option string) :=
  match column df k with
  | Some s => s_values s !! i
  | None => None
  end.

(** ** JSON documents and Python sets

    Documents are built from null, integers, strings, arrays and objects;
    [true], [false] and non-integer numbers are left out. *)

Inductive json :=
| JNull
| JNum (n : Z)
| JStr (s : string)
| JArr (items : list json)
| JObj (items : list (string * json)).

(** Hashable values that [json.load] can produce. *)
Inductive hashable :=
| HNone
| HNum (n : Z)
| HStr (s : string).

#[global] Instance hashable_eq_dec : EqDecision hashable.
Proof. solve_decision. Defined.

#[global] Program Instance hashable_countable : Countable hashable :=
  inj_countable'
    (λ h, match h with
          | HNone => inl ()
          | HNum n => inr (inl n)
          | HStr s => inr (inr s)
          end)
    (λ x, match x with
          | inl _ => HNone
          | inr (inl n) => HNum n
          | inr (inr s) => HStr s
          end) _.
Next Obligation. by intros []. Qed.

Abbreviation pyset := (gset hashable).

Definition to_hashable (j : json) : res hashable :=
  match j with
  | JNull => Returns HNone
  | JNum n => Returns (HNum n)
  | JStr s => Returns (HStr s)
  | JArr _ => Raises (Exn TypeError "unhashable type: 'list'")
  | JObj _ => Raises (Exn TypeError "unhashable type: 'dict'")
  end.

Definition of_hashable (h : hashable) : json :=
  match h with
  | HNone => JNull
  | HNum n => JNum n
  | HStr s => JStr s
  end.

Fixpoint set_of_items (items : list json) : res pyset :=
  match items with
  | [] => Returns ∅
  | j :: items' =>
      match to_hashable j with
      | Raises e => Raises e
      | Returns h =>
          match set_of_items items' with
          | Raises e => Raises e
          | Returns s => Returns ({[h]} ∪ s)
          end
      end
  end.

(** [set(data)] for [data] returned by [json.load]: the elements of an
    array, the keys of an object, the characters (here: bytes) of a
    string; anything else is not iterable. *)
Definition py_set (data : json) : res pyset :=
  match data with
  | JArr items => set_of_items items
  | JObj items => Returns (list_to_set (map (λ kv, HStr (fst kv)) items))
  | JStr s =>
      Returns (list_to_set (map (λ c, HStr (String c "")) (list_ascii_of_string s)))
  | JNull => Raises (Exn TypeError "'NoneType' object is not iterable")
  | JNum _ => Raises (Exn TypeError "'int' object is not iterable")
  end.

(** [list(processed)] as a JSON array; the order is the set's own. *)
Definition json_of_set (s : pyset) : json := JArr (map of_hashable (elements s)).

(** ** The files the program touches

    The input tree is read only and given by its [os.walk] listing.  Under
    the output directory live [temp_processing/] with the partial result
    files, [processed_folders.json] with its [flock] state, and the final
    CSV; [stdout] collects what is printed.  [journal] is a history
    variable: it has no counterpart on disk.  The arguments [temp_dir],
    [base_dir] and [output_path] of the Python functions name these fixed
    places and are dropped, also from the printed messages. *)

Record walk_entry := WalkEntry {
  dirpath : string;
  dirnames : list string;
  filenames : list string
}.

(** A [part_*.json] file: opened for writing and still empty, or holding
    the JSON list of records that [json.dump] wrote. *)
Inductive partial_file :=
| Torn
| Batch (records : list Record).

(** What [json.load] raises other than [JSONDecodeError]: the bytes of the
    file are not text in the encoding [open] reads with
    ([UnicodeDecodeError]), or the text nests deeper than the
    interpreter's recursion limit ([RecursionError]). *)
Inductive load_failure :=
| BadEncoding
| TooDeep.

Definition load_failure_exn (f : load_failure) : exn :=
  match f with
  | BadEncoding => Exn (OtherError "UnicodeDecodeError") "invalid start byte"
  | TooDeep => Exn (OtherError "RecursionError") "maximum recursion depth exceeded"
  end.

(** [processed_folders.json], up to what [json.load] makes of it: text
    that is not valid JSON (the empty file is one), a document, or content
    on which [json.load] fails in another way. *)
Inductive checkpoint_file :=
| Undecodable
| Document (doc : json)
| Unloadable (f : load_failure).

Inductive event :=
| EvDecode (filepath : string)
| EvSaved (folder : string).

Record world := World {
  input : list walk_entry;
  temp_dir : option (gmap string partial_file);
  checkpoint : option checkpoint_file;
  lock_sh : nat;
  lock_ex : bool;
  output : option dataframe;
  stdout : list string;
  journal : list event
}.

Definition set_temp_dir (t : option (gmap string partial_file)) (w : world) : world :=
  World (input w) t (checkpoint w) (lock_sh w) (lock_ex w) (output w) (stdout w) (journal w).
Definition set_checkpoint (c : option checkpoint_file) (w : world) : world :=
  World (input w) (temp_dir w) c (lock_sh w) (lock_ex w) (output w) (stdout w) (journal w).
Definition set_lock_sh (n : nat) (w : world) : world :=
  World (input w) (temp_dir w) (checkpoint w) n (lock_ex w) (output w) (stdout w) (journal w).
Definition set_lock_ex (b : bool) (w : world) : world :=
  World (input w) (temp_dir w) (checkpoint w) (lock_sh w) b (output w) (stdout w) (journal w).
Definition set_output (o : option dataframe) (w : world) : world :=
  World (input w) (temp_dir w) (checkpoint w) (lock_sh w) (lock_ex w) o (stdout w) (journal w).
Definition add_stdout (lines : list string) (w : world) : world :=
  World (input w) (temp_dir w) (checkpoint w) (lock_sh w) (lock_ex w) (output w)
        (stdout w ++ lines) (journal w).
Definition add_journal (evs : list event) (w : world) : world :=
  World (input w) (temp_dir w) (checkpoint w) (lock_sh w) (lock_ex w) (output w)
        (stdout w) (journal w ++ evs).

(** [os.walk(top)]: [top] and everything below it, in walk order.  The
    listing holds absolute paths, and paths are compared as text: none is
    normalised or resolved.  This is what [os.walk] yields for an absolute
    [top]; a [top] spelled relative to the working directory (".", "../d")
    is outside what the listing describes. *)
Definition with_sep (top : string) : string :=
  if Str.endswith top "/" then top else top +:+ "/".

Definition is_under (top path : string) : bool :=
  String.eqb path top || Str.startswith path (with_sep top).

Definition os_walk (w : world) (top : string) : list walk_entry :=
  filter (λ e, is_under top (dirpath e) = true) (input w).

Definition lookup_dir (w : world) (path : string) : option walk_entry :=
  find (λ e, String.eqb (dirpath e) path) (input w).

(** ** Atomic actions

    One constructor per system call or library call that reads or writes
    the files above.  [perform] gives its effect: [None] when the call
    has to wait (a lock held elsewhere), otherwise the value or exception
    and the new state. *)

Inductive lock_mode := LOCK_SH | LOCK_EX.

Inductive action : Type → Type :=
| IsDir (path : string) : action bool
| OsWalk (top : string) : action (list walk_entry)
| OsListdir (folder : string) : action (list string)
| Makedirs : action unit
| ListdirTemp : action (list string)
| OpenPartialW (name : string) : action unit
| DumpPartial (name : string) (records : list Record) : action unit
| LoadPartial (name : string) : action (list Record)
| RmtreeTemp : action unit
| OpenCheckpointR : action unit
| OpenCheckpointW : action unit
| Lock (mode : lock_mode) : action unit
| Unlock (mode : lock_mode) : action unit
| LoadCheckpoint : action json
| DumpCheckpoint (doc : json) : action unit
| RemoveCheckpoint : action unit
| WriteCsv (df : dataframe) : action unit
| Print (lines : list string) : action unit
| Ghost (evs : list event) : action unit.

Definition no_such_file : exn := Exn FileNotFoundError "No such file or directory".
Definition bad_json : exn := Exn JSONDecodeError "Expecting value".

Definition perform {B} (a : action B) (w : world) : option (res B * world) :=
  match a in action B return option (res B * world) with
  | IsDir path => Some (Returns (bool_decide (is_Some (lookup_dir w path))), w)
  | OsWalk top => Some (Returns (os_walk w top), w)
  | OsListdir folder =>
      match lookup_dir w folder with
      | Some e => Some (Returns (dirnames e ++ filenames e), w)
      | None => Some (Raises no_such_file, w)
      end
  | Makedirs =>
      match temp_dir w with
      | Some _ => Some (Returns (), w)
      | None => Some (Returns (), set_temp_dir (Some ∅) w)
      end
  | ListdirTemp =>
      match temp_dir w with
      | Some files => Some (Returns (map fst (map_to_list files)), w)
      | None => Some (Raises no_such_file, w)
      end
  | OpenPartialW name =>
      match temp_dir w with
      | Some files => Some (Returns (), set_temp_dir (Some (<[name := Torn]> files)) w)
      | None => Some (Raises no_such_file, w)
      end
  | DumpPartial name records =>
      match temp_dir w with
      | Some files =>
          Some (Returns (), set_temp_dir (Some (<[name := Batch records]> files)) w)
      | None => Some (Raises no_such_file, w)
      end
  | LoadPartial name =>
      match temp_dir w with
      | Some files =>
          match files !! name with
          | Some (Batch records) => Some (Returns records, w)
          | Some Torn => Some (Raises bad_json, w)
          | None => Some (Raises no_such_file, w)
          end
      | None => Some (Raises no_such_file, w)
      end
  | RmtreeTemp =>
      match temp_dir w with
      | Some _ => Some (Returns (), set_temp_dir None w)
      | None => Some (Raises no_such_file, w)
      end
  | OpenCheckpointR =>
      match checkpoint w with
      | Some _ => Some (Returns (), w)
      | None => Some (Raises no_such_file, w)
      end
  | OpenCheckpointW => Some (Returns (), set_checkpoint (Some Undecodable) w)
  | Lock LOCK_SH =>
      if lock_ex w then None
      else Some (Returns (), set_lock_sh (S (lock_sh w)) w)
  | Lock LOCK_EX =>
      if lock_ex w then None
      else match lock_sh w with
           | O => Some (Returns (), set_lock_ex true w)
           | S _ => None
           end
  | Unlock LOCK_SH => Some (Returns (), set_lock_sh (pred (lock_sh w)) w)
  | Unlock LOCK_EX => Some (Returns (), set_lock_ex false w)
  | LoadCheckpoint =>
      match checkpoint w with
      | Some (Document doc) => Some (Returns doc, w)
      | Some Undecodable => Some (Raises bad_json, w)
      | Some (Unloadable f) => Some (Raises (load_failure_exn f), w)
      | None => Some (Raises no_such_file, w)
      end
  | DumpCheckpoint doc => Some (Returns (), set_checkpoint (Some (Document doc)) w)
  | RemoveCheckpoint =>
      match checkpoint w with
      | Some _ => Some (Returns (), set_checkpoint None w)
      | None => Some (Raises no_such_file, w)
      end
  | WriteCsv df => Some (Returns (), set_output (Some df) w)
  | Print lines => Some (Returns (), add_stdout lines w)
  | Ghost evs => Some (Returns (), add_journal evs w)
  end.

(** ** Programs

    A program is a tree of atomic actions; every action has a continuation
    for its value and one for the exception it may raise.  The same
    program text is run to completion by [run] and interleaved with other
    processes by [pool_step]. *)

Inductive prog (A : Type) : Type :=
| Ret (a : A)
| Throw (e : exn)
| SysExit (code : Z)
| Act {B : Type} (a : action B) (k : B → prog A) (h : exn → prog A).
Arguments Ret {A} a.
Arguments Throw {A} e.
Arguments SysExit {A} code.
Arguments Act {A B} a k h.

Definition act {B} (a : action B) : prog B := Act a Ret Throw.

Fixpoint bind {A C} (p : prog A) (f : A → prog C) : prog C :=
  match p with
  | Ret a => f a
  | Throw e => Throw e
  | SysExit c => SysExit c
  | Act a k h => Act a (λ b, bind (k b) f) (λ e, bind (h e) f)
  end.

(** [try: p except Exception as e: handler(e)] *)
Fixpoint try_except {A} (p : prog A) (handler : exn → prog A) : prog A :=
  match p with
  | Ret a => Ret a
  | Throw e => handler e
  | SysExit c => SysExit c
  | Act a k h => Act a (λ b, try_except (k b) handler) (λ e, try_except (h e) handler)
  end.

Definition lift {A} (r : res A) : prog A :=
  match r with
  | Returns a => Ret a
  | Raises e => Throw e
  end.

Notation "'let!' x ':=' p 'in' q" := (bind p (λ x, q))
  (at level 10, x name, p at level 100, q at level 200, only parsing).
Notation "'do!' p 'in' q" := (bind p (λ _, q))
  (at level 10, p at level 100, q at level 200, only parsing).

(** What a call comes to when the process runs alone. *)
Inductive outcome (A : Type) :=
| Ok (a : A) (w : world)
| Raise (e : exn) (w : world)
| Exited (code : Z) (w : world)
| Waits (w : world).
Arguments Ok {A} a w.
Arguments Raise {A} e w.
Arguments Exited {A} code w.
Arguments Waits {A} w.

Fixpoint run {A} (p : prog A) (w : world) : outcome A :=
  match p with
  | Ret a => Ok a w
  | Throw e => Raise e w
  | SysExit c => Exited c w
  | Act a k h =>
      match perform a w with
      | None => Waits w
      | Some (Returns b, w') => run (k b) w'
      | Some (Raises e, w') => run (h e) w'
      end
  end.

Definition obind {A C} (o : outcome A) (f : A → world → outcome C) : outcome C :=
  match o with
  | Ok a w => f a w
  | Raise e w => Raise e w
  | Exited c w => Exited c w
  | Waits w => Waits w
  end.

Fixpoint for_each {A B} (f : A → prog B) (l : list A) : prog (list B) :=
  match l with
  | [] => Ret []
  | x :: l' =>
      let! y := f x in
      let! ys := for_each f l' in
      Ret (y :: ys)
  end.

(** ** Checkpoint store *)

Definition load_processed_folders : prog pyset :=
  try_except
    (do! act OpenCheckpointR in
     do! act (Lock LOCK_SH) in
     (* an exception leaves the [with] block, which closes the file and so
        drops the lock *)
     let! data := try_except (act LoadCheckpoint)
                    (λ e, do! act (Unlock LOCK_SH) in Throw e) in
     do! act (Unlock LOCK_SH) in
     lift (py_set data))
    (λ e, match exn_cls e with
          | FileNotFoundError => Ret ∅
          | JSONDecodeError => Ret ∅
          | _ => Throw e
          end).

Definition mark_folder_as_processed (folder : string) : prog unit :=
  let! processed := load_processed_folders in
  let processed := {[HStr folder]} ∪ processed in
  do! act OpenCheckpointW in
  do! act (Lock LOCK_EX) in
  do! act (DumpCheckpoint (json_of_set processed)) in
  act (Unlock LOCK_EX).

(** ** Partial result writer

    [unique_id] is the text of [uuid.uuid4()]. *)

Definition create_temp_dir : prog unit := act Makedirs.

Definition save_partial_results
    (folder_results : list Record) (index : nat) (unique_id : string) : prog unit :=
  let partial_output := "part_" +:+ pretty index +:+ "_" +:+ unique_id +:+ ".json" in
  do! act (OpenPartialW partial_output) in
  act (DumpPartial partial_output folder_results).

(** ** Merge stage *)

(** The loop over [partial_files] of [merge_partial_results_and_cleanup]. *)
Fixpoint load_partial_files (partial_files : list string) (all_data : list Record)
    : prog (list Record) :=
  match partial_files with
  | [] => Ret all_data
  | json_file :: rest =>
      let! all_data :=
        try_except
          (let! data := act (LoadPartial json_file) in Ret (all_data ++ data))
          (λ e, do! act (Print ["Failed to load " +:+ json_file +:+ ": " +:+ exn_msg e]) in
                Ret all_data) in
      load_partial_files rest all_data
  end.

Definition merge_partial_results_and_cleanup : prog unit :=
  do! act (Print ["Mergging all partial results and cleaning up temporary files..."]) in
  let! names := act ListdirTemp in
  let partial_files := filter (λ f, Str.endswith f ".json" = true) names in
  match partial_files with
  | [] =>
      do! act (Print ["No DICOM files were processed. No CSV file will be generated."]) in
      act RmtreeTemp
  | _ =>
      let! all_data := load_partial_files partial_files [] in
      do! act (WriteCsv (final_table all_data)) in
      act RmtreeTemp
  end.

(** ** Folder scanner

    The four checker threads only read the input tree and their results
    are deduplicated and sorted, so the order in which they finish does not
    show. *)

Definition has_dcm (e : walk_entry) : bool :=
  existsb (λ fname, Str.endswith fname ".dcm") (filenames e).

Definition check_dcm_files (directory : string) : prog (option string) :=
  let! entries := act (OsWalk directory) in
  Ret (dirpath <$> find has_dcm entries).

(** [if result:] *)
Definition truthy (result : option string) : option string :=
  match result with
  | Some "" => None
  | _ => result
  end.

Definition find_dcm_folders (root_dir : string) : prog (list string) :=
  let! entries := act (OsWalk root_dir) in
  let! results :=
    for_each (λ e, check_dcm_files (Str.os_path_join root_dir (dirpath e))) entries in
  let dcm_folders := omap truthy results in
  Ret (merge_sort String.le (remove_dups dcm_folders)).

(** ** Futures

    [as_completed] yields futures in the order they finish.  An order is
    given by insertion positions: the [i]-th element is put at position
    [order !! i] (0 when absent) among those that follow it. *)

Definition insert_at {A} (i : nat) (x : A) (l : list A) : list A :=
  take i l ++ x :: drop i l.

Fixpoint permute {A} (order : list nat) (l : list A) : list A :=
  match l with
  | [] => []
  | x :: l' => insert_at (hd 0 order) x (permute (tl order) l')
  end.

(** [range(0, stop, step)] and [l[i:j]] *)
Definition range_step (stop step : nat) : list nat :=
  map (λ k, k * step) (seq 0 ((stop + step - 1) / step)).

Definition slice {A} (l : list A) (i j : nat) : list A := take (j - i) (drop i l).

(** ** Extraction and the parallel run *)

Section Pipeline.

(** Python objects that are neither [None], [bytes], [list], [dict] nor
    [set] (numbers, strings, [pydicom] value classes). *)
Variable obj : Type.

Inductive value :=
| VNone
| VBytes (b : list Byte.byte)
| VList (items : list value)
| VDict (items : list (value * value))
| VSet (items : list value)
| VObj (o : obj).

(** [json.dumps(value)] and [str(value)]: library calls that return text or
    raise. *)
Variable json_dumps : value → res string.
Variable py_str : value → res string.

(** [pydicom]-based [dicom_tag_to_dict(path)]: the flat tag dictionary of
    the file at [path], or the error raised while reading it. *)
Variable dicom_tag_to_dict : string → res (dict value).

(** [bytes.hex()] *)
Definition hex_digit (n : N) : ascii :=
  match n with
  | 0 => "0" | 1 => "1" | 2 => "2" | 3 => "3" | 4 => "4" | 5 => "5"
  | 6 => "6" | 7 => "7" | 8 => "8" | 9 => "9" | 10 => "a" | 11 => "b"
  | 12 => "c" | 13 => "d" | 14 => "e" | _ => "f"
  end%N%char.

Fixpoint bytes_hex (b : list Byte.byte) : string :=
  match b with
  | [] => ""
  | x :: b' =>
      let n := Byte.to_N x in
      String (hex_digit (n / 16)) (String (hex_digit (n mod 16)) (bytes_hex b'))
  end.

(** [isinstance(value, (list, dict, set))] *)
Definition is_composite (v : value) : bool :=
  match v with
  | VList _ | VDict _ | VSet _ => true
  | _ => false
  end.

Definition stringify_value (v : value) : res string :=
  match v with
  | VNone => Returns "N/A"
  | VBytes b => Returns (bytes_hex b)
  | _ =>
      match (if is_composite v then json_dumps v else py_str v) with
      | Returns s => Returns s
      | Raises e => Returns ("Error: " +:+ exn_msg e)
      end
  end.

(** The loop [for key, value in dicom_data.items(): dicom_data[key] =
    stringify_value(value)]: values are replaced in place, and the loop
    stops at the first call that raises. *)
Fixpoint stringify_items (d : dict value) : res Record :=
  match d with
  | [] => Returns []
  | (key, v) :: d' =>
      match stringify_value v with
      | Raises e => Raises e
      | Returns s =>
          match stringify_items d' with
          | Raises e => Raises e
          | Returns r => Returns ((key, s) :: r)
          end
      end
  end.

(** [process_file(filepath)]: the returned record and the lines printed. *)
Definition process_file (filepath : string) : Record * list string :=
  let attempt : res Record :=
    match dicom_tag_to_dict filepath with
    | Raises e => Raises e
    | Returns dicom_data =>
        match stringify_items dicom_data with
        | Raises e => Raises e
        | Returns d => Returns (dict_set "DicomPath" filepath d)
        end
    end in
  match attempt with
  | Returns r => (r, [])
  | Raises e =>
      ([("DicomPath", filepath)],
       ["Error processing file " +:+ filepath +:+ ": " +:+ exn_msg e])
  end.

(** [process_files_chunk(filepaths)] *)
Definition process_files_chunk (filepaths : list string) : list (Record * list string) :=
  map process_file filepaths.

(** ** Folder processor

    [order] is the order in which the chunk futures complete. *)

Definition chunk_size : nat := 6.

Definition process_folder (folder : string) (order : list nat) : prog (list Record) :=
  let! names := act (OsListdir folder) in
  let filepaths :=
    map (Str.os_path_join folder) (filter (λ f, Str.endswith f ".dcm" = true) names) in
  let chunks :=
    map (λ i, slice filepaths i (i + chunk_size))
        (range_step (length filepaths) chunk_size) in
  let completed := permute order chunks in
  let all_results := flat_map process_files_chunk completed in
  do! act (Ghost (map EvDecode (concat completed))) in
  do! act (Print (flat_map snd all_results)) in
  Ret (map fst all_results).

(** [EvSaved folder] records that [save_partial_results] has returned for
    [folder]. *)
Definition process_folder_and_save_results
    (folder : string) (processed_folders : pyset)
    (order : list nat) (unique_id : string) : prog unit :=
  if bool_decide (HStr folder ∉ processed_folders) then
    let! folder_results := process_folder folder order in
    let! names := act ListdirTemp in
    do! save_partial_results folder_results (length names) unique_id in
    do! act (Ghost [EvSaved folder]) in
    mark_folder_as_processed folder
  else Ret ().

(** ** The worker pool

    The twelve worker processes run the futures of
    [collect_and_process_dicom_data]; each step of the pool is one atomic
    action of one of them.  A [schedule] lists which future moves next; an
    entry whose future is finished or has to wait is skipped. *)

Definition pool_step (i : nat) (futures : list (prog unit)) (w : world)
    : option (list (prog unit) * world) :=
  match futures !! i with
  | Some (Act a k h) =>
      match perform a w with
      | Some (Returns b, w') => Some (<[i := k b]> futures, w')
      | Some (Raises e, w') => Some (<[i := h e]> futures, w')
      | None => None
      end
  | _ => None
  end.

Fixpoint run_pool (schedule : list nat) (futures : list (prog unit)) (w : world)
    : list (prog unit) * world :=
  match schedule with
  | [] => (futures, w)
  | i :: schedule' =>
      match pool_step i futures w with
      | Some (futures', w') => run_pool schedule' futures' w'
      | None => run_pool schedule' futures w
      end
  end.

(** [future.result()] over all futures: [None] while some future has not
    finished, else the first exception if there is one. *)
Fixpoint results (futures : list (prog unit)) : option (res unit) :=
  match futures with
  | [] => Some (Returns ())
  | p :: futures' =>
      match p, results futures' with
      | Act _ _ _, _ => None
      | _, None => None
      | Throw e, Some _ => Some (Raises e)
      | _, Some r => Some r
      end
  end.

(** What the run does not decide: the interleaving of the workers, and
    for each folder the order in which its chunks complete and the UUID of
    its partial file. *)
Record oracle := Oracle {
  schedule : list nat;
  completion : string → list nat;
  uuid4 : string → string
}.

(** The [with ProcessPoolExecutor] block ends when every future has
    finished; a schedule that stops before that gives [Waits]. *)

Definition collect_and_process_dicom_data (root_dir : string) (o : oracle) (w : world)
    : outcome unit :=
  obind
    (run (do! create_temp_dir in
          let! dcm_folders := find_dcm_folders root_dir in
          let! processed_folders := load_processed_folders in
          Ret (dcm_folders, processed_folders)) w)
    (λ r w1,
       let futures :=
         map (λ folder,
                process_folder_and_save_results folder (snd r)
                  (completion o folder) (uuid4 o folder)) (fst r) in
       let '(futures', w2) := run_pool (schedule o) futures w1 in
       match results futures' with
       | None => Waits w2
       | Some (Raises e) => Raise e w2
       | Some (Returns _) => run merge_partial_results_and_cleanup w2
       end).

(** [main], after argument parsing; the message for a bad path goes to
    [stderr] and is left out. *)
Definition main (path : string) (o : oracle) (w : world) : outcome unit :=
  obind
    (run (let! isdir := act (IsDir path) in
          if isdir : bool then act (Print ["Collecting DICOM metadata..."])
          else SysExit 1) w)
    (λ _ w1,
       obind (collect_and_process_dicom_data path o w1)
         (λ _ w2, run (do! act RemoveCheckpoint in act (Print ["Done."])) w2)).

End Pipeline.

Arguments VNone {obj}.
Arguments VBytes {obj} b.
Arguments VList {obj} items.
Arguments VDict {obj} items.
Arguments VSet {obj} items.
Arguments VObj {obj} o.
Arguments is_composite {obj} v.

(** ** Notions used in the statements *)

(** The cells that [replace_with_none] takes for missing. *)
Definition sentinels : list (option string) :=
  [Some ""; Some "N/A"; Some "None"; Some "NONE"; None].

(** A record that holds the source path and nothing else. *)
Definition path_only (r : Record) : bool :=
  match r with
  | [(k, _)] => String.eqb k "DicomPath"
  | _ => false
  end.

(** A record with some field besides the source path. *)
Definition carries_error_marker (r : Record) : Prop :=
  ∃ k v, dict_get k r = Some v ∧ k ≠ "DicomPath".

Definition raises {A} (r : res A) : bool :=
  match r with
  | Raises _ => true
  | Returns _ => false
  end.

(** The paths [process_folder] hands to [process_file] for a folder whose
    listing is [names]. *)
Definition dcm_filepaths (folder : string) (names : list string) : list string :=
  map (Str.os_path_join folder) (filter (λ f, Str.endswith f ".dcm" = true) names).

(** The chunks of [process_folder] in the order their futures complete. *)
Definition completed_chunks (filepaths : list string) (order : list nat)
    : list (list string) :=
  permute order
    (map (λ i, slice filepaths i (i + chunk_size))
         (range_step (length filepaths) chunk_size)).

(** ** A small instance

    A tree [/data] with one folder of two [.dcm] files, the second of which
    the decoder rejects; every value is an opaque object whose [str] is
    "1.2.840". *)

Definition demo_dumps : value unit → res string :=
  λ _, Raises (Exn TypeError "Object of type set is not JSON serializable").

Definition demo_str : value unit → res string := λ _, Returns "1.2.840".

Definition demo_decoder : string → res (dict (value unit)) :=
  λ path,
    if String.eqb path "/data/s1/b.dcm"
    then Raises (Exn (OtherError "InvalidDicomError")
                     "File is missing DICOM File Meta Information header")
    else Returns [("SOP Class UID (0008, 0016)", VObj ()); ("Patient ID (0010, 0020)", VNone)].

Definition demo_entry : walk_entry :=
  WalkEntry "/data/s1" [] ["a.dcm"; "b.dcm"; "notes.txt"].

Definition demo_world : world :=
  World [WalkEntry "/data" ["s1"] []; demo_entry] None None 0 false None [] [].

(** A tree without any [.dcm] file, and nothing else on disk. *)
Definition empty_world : world :=
  World [WalkEntry "/scans" ["notes"] ["README.txt"];
         WalkEntry "/scans/notes" [] ["protocol.pdf"]]
        None None 0 false None [] [].

(** ** The checkpoint invariant

    [saved w folder]: [save_partial_results] has returned for [folder].
    [checkpoint_set w]: the set [load_processed_folders] would return. *)

Definition saved (w : world) (folder : string) : Prop := EvSaved folder ∈ journal w.

Definition doc_set (doc : json) : pyset :=
  match py_set doc with
  | Returns s => s
  | Raises _ => ∅
  end.

Definition checkpoint_set (w : world) : pyset :=
  match checkpoint w with
  | Some (Document doc) => doc_set doc
  | _ => ∅
  end.

Definition checkpoint_safe (w : world) : Prop :=
  ∀ folder, HStr folder ∈ checkpoint_set w → saved w folder.

(** The journal only grows. *)
Definition extends (w w' : world) : Prop := ∀ ev, ev ∈ journal w → ev ∈ journal w'.

(** What a process must know before it overwrites the checkpoint. *)
Definition dump_ok {B} (a : action B) (w : world) : Prop :=
  match a with
  | DumpCheckpoint doc => ∀ folder, HStr folder ∈ doc_set doc → saved w folder
  | _ => True
  end.

Definition is_dump {B} (a : action B) : bool :=
  match a with
  | DumpCheckpoint _ => true
  | _ => false
  end.

(** [wp p Q Qe w]: started in any state whose journal extends that of [w],
    and whatever the other processes do between its actions as long as
    they keep the invariant and only extend the journal, [p] never dumps a
    checkpoint that names a folder not yet saved, and it ends with [Q] when
    it returns and [Qe] when it raises. *)
Fixpoint wp {A} (p : prog A) (Q : A → world → Prop) (Qe : exn → world → Prop)
    (w : world) : Prop :=
  match p with
  | Ret a => Q a w
  | Throw e => Qe e w
  | SysExit _ => True
  | Act a k h =>
      ∀ w1, extends w w1 → checkpoint_safe w1 →
        dump_ok a w1 ∧
        ∀ r w2, perform a w1 = Some (r, w2) →
          match r with
          | Returns b => wp (k b) Q Qe w2
          | Raises e => wp (h e) Q Qe w2
          end
  end.

(** A program without any write to the checkpoint file. *)
Fixpoint quiet {A} (p : prog A) : Prop :=
  match p with
  | Act a k h => is_dump a = false ∧ (∀ b, quiet (k b)) ∧ (∀ e, quiet (h e))
  | _ => True
  end.

Definition pool_safe (futures : list (prog unit)) (w : world) : Prop :=
  checkpoint_safe w ∧ Forall (λ p, wp p (λ _ _, True) (λ _ _, True) w) futures.

(** Two folders with one file each, an empty temp directory and no
    checkpoint file; the two futures of a run that loaded
    [processed_folders] at its start. *)
Definition race_world : world :=
  World [WalkEntry "/data" ["a"; "b"] [];
         WalkEntry "/data/a" [] ["x.dcm"];
         WalkEntry "/data/b" [] ["y.dcm"]]
        (Some ∅) None 0 false None [] [].

Definition race_futures (processed_folders : pyset) : list (prog unit) :=
  [process_folder_and_save_results unit demo_dumps demo_str demo_decoder
     "/data/a" processed_folders [] "1f0e";
   process_folder_and_save_results unit demo_dumps demo_str demo_decoder
     "/data/b" processed_folders [] "77c2"].

(** Both workers read the checkpoint before either writes it. *)
Definition race_schedule : list nat :=
  replicate 8 0 ++ replicate 8 1 ++ replicate 4 0 ++ replicate 4 1.

(** The same run resumed over a checkpoint that names an earlier folder;
    the second worker reads while the first has the file open for
    writing. *)
Definition resumed_world : world :=
  World (input race_world) (Some ∅)
        (Some (Document (JArr [JStr "/data/old"]))) 0 false None []
        [EvSaved "/data/old"].

Definition torn_schedule : list nat :=
  replicate 12 0 ++ replicate 11 1 ++ replicate 3 0 ++ replicate 4 1.

(** ** The element walk of [dicom_tag_to_dict]

    What [pydicom.dcmread] returns is a tree: a dataset holds data
    elements, and a data element holds a plain value or a sequence of
    datasets.  An element carries [element.name], the text of
    [element.tag] and [element.tag.group]. *)

Module Decoder.
Section Walk.

Variable obj : Type.

Inductive element :=
| DataElement (name tag : string) (group : N) (v : value obj)
| SequenceElement (name tag : string) (group : N) (items : list element)
| Dataset (elements : list element).

(** [element.tag.group >> 8 == 0x60 and (element.tag.group & 0xFF) % 2 == 0] *)
Definition overlay_group (group : N) : bool :=
  (N.shiftr group 8 =? 0x60)%N && ((N.land group 0xFF) mod 2 =? 0)%N.

(** [element.tag.group in (0x7FE0, 0xFFFA, 0xFFFC, 0xFFFE)] *)
Definition payload_group (group : N) : bool :=
  bool_decide (group ∈ [0x7FE0; 0xFFFA; 0xFFFC; 0xFFFE]%N).

(** The test that guards [results_tag_dict[tag_key] = element.value]. *)
Definition kept_group (group : N) : bool :=
  negb (overlay_group group) && negb (payload_group group).

(** [process_element(element, prefix)], with [results_tag_dict] threaded
    through. *)
Fixpoint process_element (e : element) (prefix : string)
    (results_tag_dict : dict (value obj)) : dict (value obj) :=
  match e with
  | DataElement name tag group v =>
      if kept_group group
      then dict_set (prefix +:+ name +:+ " " +:+ tag) v results_tag_dict
      else results_tag_dict
  | SequenceElement name tag group items =>
      let prefix := prefix +:+ name +:+ " " +:+ tag +:+ " - " in
      fold_left (λ results sub_element, process_element sub_element prefix results)
                items results_tag_dict
  | Dataset elements =>
      fold_left (λ results sub_element, process_element sub_element prefix results)
                elements results_tag_dict
  end.

(** [pydicom.dcmread(path, specific_tags=...)] *)
Variable dcmread : string → res element.

Definition dicom_tag_to_dict (dicom_file_path : string) : res (dict (value obj)) :=
  match dcmread dicom_file_path with
  | Raises e => Raises e
  | Returns dicom_file => Returns (process_element dicom_file "" [])
  end.

(** The plain-valued elements below [e] in document order, each with the
    key it is filed under, its group and its value. *)
Fixpoint leaves (e : element) (prefix : string) : list (string * N * value obj) :=
  match e with
  | DataElement name tag group v => [(prefix +:+ name +:+ " " +:+ tag, group, v)]
  | SequenceElement name tag group items =>
      flat_map (λ sub, leaves sub (prefix +:+ name +:+ " " +:+ tag +:+ " - ")) items
  | Dataset elements => flat_map (λ sub, leaves sub prefix) elements
  end.

(** The value of the last kept leaf filed under [key]. *)
Definition last_kept (key : string) (ls : list (string * N * value obj))
    : option (value obj) :=
  fold_left (λ found l,
               if String.eqb l.1.1 key && kept_group l.1.2 then Some l.2 else found)
            ls None.

End Walk.
End Decoder.

(** ** Notions used in the further statements *)

(** What the merge loop takes from the file [name] of the temp directory
    [files], and what it prints about it. *)
Definition batch_records (files : gmap string partial_file) (name : string) : list Record :=
  match files !! name with
  | Some (Batch records) => records
  | _ => []
  end.

Definition load_complaint (files : gmap string partial_file) (name : string) : list string :=
  match files !! name with
  | Some (Batch _) => []
  | Some Torn => ["Failed to load " +:+ name +:+ ": " +:+ exn_msg bad_json]
  | None => ["Failed to load " +:+ name +:+ ": " +:+ exn_msg no_such_file]
  end.

(** [partial_files] of the merge stage, by name. *)
Definition json_names (files : gmap string partial_file) : list string :=
  filter (λ f, Str.endswith f ".json" = true) (map fst (map_to_list files)).

(** The name [save_partial_results] gives its file. *)
Definition part_name (index : nat) (unique_id : string) : string :=
  "part_" +:+ pretty index +:+ "_" +:+ unique_id +:+ ".json".

(** The rows the merge stage builds its table from. *)
Definition merged_rows (files : gmap string partial_file) : list Record :=
  flat_map (batch_records files) (json_names files).

(** No process holds a lock on the checkpoint file. *)
Definition unlocked (w : world) : bool :=
  negb (lock_ex w) && Nat.eqb (lock_sh w) 0.

(** The checkpoint file is missing, not valid JSON, or a document that
    [set] accepts. *)
Definition readable_checkpoint (w : world) : bool :=
  match checkpoint w with
  | Some (Document doc) => negb (raises (py_set doc))
  | Some (Unloadable _) => false
  | _ => true
  end.

(** A listing in which no directory comes after a directory below it, as
    [os.walk] produces it top-down. *)
Fixpoint top_down (entries : list walk_entry) : bool :=
  match entries with
  | [] => true
  | e :: rest =>
      forallb (λ e', implb (is_under (dirpath e') (dirpath e))
                           (String.eqb (dirpath e') (dirpath e))) rest
      && top_down rest
  end.

(** The actions that delete a file or write the final table. *)
Definition removes_or_publishes {B} (a : action B) : bool :=
  match a with
  | RmtreeTemp | RemoveCheckpoint | WriteCsv _ => true
  | _ => false
  end.

(** A program without any such action. *)
Fixpoint only_adds {A} (p : prog A) : Prop :=
  match p with
  | Act a k h => removes_or_publishes a = false ∧ (∀ b, only_adds (k b)) ∧ (∀ e, only_adds (h e))
  | _ => True
  end.

(** From [w] to [w'] the input tree and the output file are the same and
    no file has gone: the temp directory, each file in it and the
    checkpoint file are still there if they were. *)
Definition nothing_lost (w w' : world) : Prop :=
  input w' = input w ∧
  output w' = output w ∧
  (∀ files, temp_dir w = Some files →
     ∃ files', temp_dir w' = Some files' ∧
               ∀ name, is_Some (files !! name) → is_Some (files' !! name)) ∧
  (is_Some (checkpoint w) → is_Some (checkpoint w')).

(** ** Notions for the partial files under interleaving

    A worker with UUID [unique_id] writes files named [part_<n>_<unique_id>.json]
    only.  [undisturbed unique_id w w'] says what the steps of the other
    workers leave alone; [delivers unique_id p Q w]: started in [w] and
    interleaved with steps that satisfy [undisturbed unique_id], [p] writes
    no file but its own, never removes the temp directory, and [Q] holds
    from its return on. *)

Fixpoint no_sep (s : string) : bool :=
  match s with
  | EmptyString => true
  | String c s' => negb (Ascii.eqb c "_") && no_sep s'
  end.

Definition mine (unique_id name : string) : Prop :=
  ∃ index, name = part_name index unique_id.

Definition own_write (unique_id : string) {B} (a : action B) : Prop :=
  match a with
  | OpenPartialW name | DumpPartial name _ => mine unique_id name
  | Makedirs | RmtreeTemp => False
  | _ => True
  end.

Definition undisturbed (unique_id : string) (w w' : world) : Prop :=
  input w' = input w ∧
  ∀ files, temp_dir w = Some files →
    ∃ files', temp_dir w' = Some files' ∧
              ∀ name, mine unique_id name → files' !! name = files !! name.

Definition holds_batch (unique_id : string) (rs : list Record) (w : world) : Prop :=
  ∃ index files,
    temp_dir w = Some files ∧ files !! part_name index unique_id = Some (Batch rs).

Fixpoint delivers (unique_id : string) {A} (p : prog A) (Q : A → world → Prop)
    (w : world) : Prop :=
  match p with
  | Ret a => ∀ w1, undisturbed unique_id w w1 → Q a w1
  | Throw _ => True
  | SysExit _ => False
  | Act a k h =>
      ∀ w1, undisturbed unique_id w w1 →
        own_write unique_id a ∧
        ∀ r w2, perform a w1 = Some (r, w2) →
          match r with
          | Returns b => delivers unique_id (k b) Q w2
          | Raises e => delivers unique_id (h e) Q w2
          end
  end.

(** The actions that leave the temp directory as it is. *)
Definition temp_neutral {B} (a : action B) : bool :=
  match a with
  | Makedirs | OpenPartialW _ | DumpPartial _ _ | RmtreeTemp => false
  | _ => true
  end.

Fixpoint neutral {A} (p : prog A) : Prop :=
  match p with
  | Act a k h => temp_neutral a = true ∧ (∀ b, neutral (k b)) ∧ (∀ e, neutral (h e))
  | SysExit _ => False
  | _ => True
  end.

(** ** Notions for the results on disk

    [EvSaved folder] is logged right after [save_partial_results] returns;
    the notions below tie the event to the file.  [saves_first unique_id
    folder rs p w]: started in [w] and interleaved with steps that satisfy
    [undisturbed unique_id], [p] writes no file but its own, and whenever
    it logs [EvSaved] it does so for [folder], with a complete file of its
    own that holds [rs] in the temp directory, and from then on it neither
    touches the temp directory nor logs anything. *)

Definition announces (folder : string) {B} (a : action B) : Prop :=
  match a with
  | Ghost evs => EvSaved folder ∈ evs
  | _ => False
  end.

Definition is_ghost {B} (a : action B) : bool :=
  match a with
  | Ghost _ => true
  | _ => false
  end.

Fixpoint settled {A} (p : prog A) : Prop :=
  match p with
  | Act a k h =>
      temp_neutral a = true ∧ is_ghost a = false ∧
      (∀ b, settled (k b)) ∧ (∀ e, settled (h e))
  | SysExit _ => False
  | _ => True
  end.

Fixpoint saves_first (unique_id folder : string) (rs : list Record) {A} (p : prog A)
    (w : world) : Prop :=
  match p with
  | Act a k h =>
      ∀ w1, undisturbed unique_id w w1 →
        own_write unique_id a ∧
        (∀ g, announces g a →
              g = folder ∧ holds_batch unique_id rs w1 ∧ ∀ b, settled (k b)) ∧
        ∀ r w2, perform a w1 = Some (r, w2) →
          match r with
          | Returns b => saves_first unique_id folder rs (k b) w2
          | Raises e => saves_first unique_id folder rs (h e) w2
          end
  | _ => True
  end.

Section Results.

Variable obj : Type.
Variables json_dumps py_str : value obj → res string.
Variable dicom_tag_to_dict : string → res (dict (value obj)).

(** What [process_folder] returns for [folder] when its chunks complete in
    the given order: one record per entry that ends in ".dcm". *)
Definition folder_results (w : world) (folder : string) (order : list nat) : list Record :=
  match lookup_dir w folder with
  | Some e =>
      map fst
        (flat_map (map (process_file obj json_dumps py_str dicom_tag_to_dict))
           (completed_chunks (dcm_filepaths folder (dirnames e ++ filenames e)) order))
  | None => []
  end.

(** The temp directory holds a complete file with the results of
    [folder]. *)
Definition on_disk (w : world) (folder : string) : Prop :=
  ∃ files name order,
    temp_dir w = Some files ∧
    files !! name = Some (Batch (folder_results w folder order)).

End Results.

(** A program all of whose writes to the temp directory go to files named
    after [unique_id], and which never removes the directory. *)
Fixpoint writes_own (unique_id : string) {A} (p : prog A) : Prop :=
  match p with
  | Act a k h =>
      own_write unique_id a ∧
      (∀ b, writes_own unique_id (k b)) ∧ (∀ e, writes_own unique_id (h e))
  | _ => True
  end.

(** The first run was interrupted after it had saved the results of
    [/data/a] and before it marked the folder; the second run saved and
    marked the folder again and was interrupted in turn. *)
Definition demo_record (path : string) : Record :=
  [("SOP Class UID (0008, 0016)", "1.2.840"); ("Patient ID (0010, 0020)", "N/A");
   ("DicomPath", path)].

Definition interrupted_world : world :=
  World (input race_world)
        (Some {[ part_name 0 "1f0e" := Batch [demo_record "/data/a/x.dcm"] ]})
        None 0 false None [] [EvDecode "/data/a/x.dcm"; EvSaved "/data/a"].

Definition twice_saved_world : world :=
  World (input race_world)
        (Some (<[ part_name 1 "9c3d" := Batch [demo_record "/data/a/x.dcm"] ]>
                 {[ part_name 0 "1f0e" := Batch [demo_record "/data/a/x.dcm"] ]}))
        (Some (Document (json_of_set {[HStr "/data/a"]}))) 0 false None []
        [EvDecode "/data/a/x.dcm"; EvSaved "/data/a";
         EvDecode "/data/a/x.dcm"; EvSaved "/data/a"].

(** * Part II: properties *)

(** ** Strings and dictionaries *)

Lemma endswith_unfold s suf :
  Str.endswith s suf =
  if String.eqb s suf then true
  else match s with
       | EmptyString => false
       | String _ s' => Str.endswith s' suf
       end.
Proof. by destruct s. Qed.

Lemma endswith_refl s : Str.endswith s s = true.
Proof. by rewrite endswith_unfold, String.eqb_refl. Qed.

Lemma endswith_cons c s suf :
  Str.endswith s suf = true → Str.endswith (String c s) suf = true.
Proof.
  intros H. rewrite endswith_unfold. by destruct (String.eqb (String c s) suf).
Qed.

Lemma endswith_app a b suf :
  Str.endswith b suf = true → Str.endswith (a +:+ b) suf = true.
Proof.
  intros H. induction a as [|c a IH]; [done|].
  change (String c a +:+ b) with (String c (a +:+ b)). by apply endswith_cons.
Qed.

Lemma endswith_join a b suf :
  Str.endswith b suf = true → Str.endswith (Str.os_path_join a b) suf = true.
Proof.
  intros H. unfold Str.os_path_join.
  destruct (Str.startswith b "/"); [done|].
  destruct (String.eqb a "" || Str.endswith a "/"); repeat apply endswith_app; done.
Qed.

Lemma dict_get_set_eq {V} k (v : V) d : dict_get k (dict_set k v d) = Some v.
Proof.
  induction d as [|[k' v'] d IH]; simpl.
  - by rewrite String.eqb_refl.
  - destruct (String.eqb k' k) eqn:E; simpl.
    + by rewrite String.eqb_refl.
    + by rewrite E.
Qed.

Lemma dict_get_keys {V} k (d : dict V) : is_Some (dict_get k d) ↔ k ∈ dict_keys d.
Proof.
  induction d as [|[k' v] d IH]; simpl.
  - split; [by intros [? ?]|]. by intros ?%elem_of_nil.
  - destruct (String.eqb k' k) eqn:E.
    + apply String.eqb_eq in E as ->. split; [intros _; left|eauto].
    + apply String.eqb_neq in E. rewrite IH. split.
      * by right.
      * intros [?|?]%elem_of_cons; [congruence|done].
Qed.

(** ** The merge stage's table *)

Lemma replace_with_none_spec c :
  replace_with_none c = if bool_decide (c ∈ sentinels) then None else c.
Proof. done. Qed.

Lemma replace_with_none_None c : replace_with_none c = None ↔ c ∈ sentinels.
Proof.
  rewrite replace_with_none_spec. case_bool_decide as H; [done|].
  split; [|done]. intros ->. exfalso. apply H. unfold sentinels. set_solver.
Qed.

Lemma replace_with_none_other c : c ∉ sentinels → replace_with_none c = c.
Proof. intros H. rewrite replace_with_none_spec. by rewrite bool_decide_eq_false_2. Qed.



Lemma first_seen_elem seen l k : k ∈ first_seen seen l ↔ k ∈ l ∧ k ∉ seen.
Proof.
  revert seen. induction l as [|x l IH]; intros seen; simpl.
  - set_solver.
  - case_bool_decide as Hx.
    + rewrite IH. set_solver.
    + rewrite elem_of_cons, IH. destruct (decide (k = x)) as [->|]; set_solver.
Qed.

Lemma first_seen_NoDup seen l : NoDup (first_seen seen l).
Proof.
  revert seen. induction l as [|x l IH]; intros seen; simpl; [constructor|].
  case_bool_decide; [apply IH|]. constructor; [|apply IH].
  rewrite first_seen_elem. set_solver.
Qed.

Lemma all_null_length (l : list (option string)) :
  length (filter (λ c, c = None) l) = length l ↔ Forall (λ c, c = None) l.
Proof.
  induction l as [|c l IH]; [by split; [constructor|]|].
  rewrite filter_cons. case_decide as Hc; simpl.
  - rewrite Forall_cons. split.
    + intros [= H]. split; [done|]. by apply IH.
    + intros [_ H]. f_equal. by apply IH.
  - split.
    + intros H. pose proof (length_filter (λ c, c = None) l). lia.
    + by intros [? _]%Forall_cons.
Qed.

Lemma from_records_names all_data :
  column_names (from_records all_data) = first_seen [] (flat_map dict_keys all_data).
Proof.
  unfold column_names, from_records. rewrite map_map. simpl. apply map_id.
Qed.

Lemma from_records_elem s all_data :
  s ∈ from_records all_data ↔
  s_name s ∈ column_names (from_records all_data) ∧
  s_values s = map (λ r, dict_get (s_name s) r) all_data.
Proof.
  rewrite from_records_names. unfold from_records.
  change (map ?f ?l) with (f <$> l) at 1. rewrite list_elem_of_fmap. split.
  - intros (k & -> & Hk). done.
  - intros [Hk Hv]. exists (s_name s). split; [|done]. destruct s. simpl in *. by subst.
Qed.

Lemma from_records_key k all_data :
  k ∈ column_names (from_records all_data) ↔ ∃ r, r ∈ all_data ∧ k ∈ dict_keys r.
Proof.
  rewrite from_records_names, first_seen_elem.
  change (flat_map dict_keys all_data) with (all_data ≫= dict_keys).
  rewrite list_elem_of_bind. set_solver.
Qed.

Lemma map_elements_elem f s df :
  s ∈ map_elements f df ↔
  ∃ s0, s0 ∈ df ∧ s = Series (s_name s0) (map f (s_values s0)).
Proof.
  unfold map_elements. change (map ?g df) with (g <$> df).
  rewrite list_elem_of_fmap. naive_solver.
Qed.

Lemma map_elements_names f df :
  column_names (map_elements f df) = column_names df.
Proof. unfold column_names, map_elements. by rewrite map_map. Qed.

Lemma normalised_height f all_data s :
  s ∈ map_elements f (from_records all_data) →
  df_height (map_elements f (from_records all_data)) = length all_data ∧
  length (s_values s) = length all_data.
Proof.
  intros Hs. split.
  - unfold from_records in *.
    destruct (first_seen [] (flat_map dict_keys all_data)) as [|k ks].
    + by apply elem_of_nil in Hs.
    + simpl. by rewrite !length_map.
  - apply map_elements_elem in Hs as (s0 & Hs0 & ->).
    apply from_records_elem in Hs0 as [_ ->]. simpl. by rewrite !length_map.
Qed.

Lemma column_Some_elem df k s : column df k = Some s → s ∈ df ∧ s_name s = k.
Proof.
  unfold column. intros H. apply find_some in H as [Hin Heq].
  split; [by apply list_elem_of_In|]. by apply String.eqb_eq.
Qed.

Lemma column_of_elem df s :
  NoDup (column_names df) → s ∈ df → column df (s_name s) = Some s.
Proof.
  unfold column, column_names. induction df as [|s0 df IH]; intros Hnd Hs; simpl.
  - by apply elem_of_nil in Hs.
  - apply NoDup_cons in Hnd as [Hnotin Hnd]. simpl in *.
    destruct (String.eqb (s_name s0) (s_name s)) eqn:E.
    + apply String.eqb_eq in E. apply elem_of_cons in Hs as [->|Hs]; [done|].
      exfalso. apply Hnotin. rewrite E.
      change (map s_name df) with (s_name <$> df). by apply list_elem_of_fmap_2.
    + apply elem_of_cons in Hs as [->|Hs]; [by rewrite String.eqb_refl in E|].
      by apply IH.
Qed.

Lemma final_table_elem all_data s :
  s ∈ final_table all_data ↔
  s_name s ∈ column_names (from_records all_data) ∧
  s_values s = map (λ r, replace_with_none (dict_get (s_name s) r)) all_data ∧
  ∃ r, r ∈ all_data ∧ replace_with_none (dict_get (s_name s) r) ≠ None.
Proof.
  unfold final_table, drop_null_columns. rewrite list_elem_of_filter.
  set (df := map_elements replace_with_none (from_records all_data)).
  assert (Hval : s ∈ df ↔
            s_name s ∈ column_names (from_records all_data) ∧
            s_values s = map (λ r, replace_with_none (dict_get (s_name s) r)) all_data).
  { unfold df. rewrite map_elements_elem. split.
    - intros (s0 & [Hk Hv]%from_records_elem & ->). simpl. split; [done|].
      by rewrite Hv, map_map.
    - intros [Hk Hv]. exists (Series (s_name s) (map (dict_get (s_name s)) all_data)).
      split; [by apply from_records_elem|]. simpl. rewrite map_map.
      destruct s; simpl in *; by subst. }
  split.
  - intros [Hnull Hs]. pose proof Hs as [Hk Hv]%Hval. split; [done|]. split; [done|].
    pose proof (normalised_height _ _ _ Hs) as [Hh Hl]. fold df in Hh. rewrite Hh in Hnull.
    unfold null_count in Hnull. rewrite <- Hl in Hnull.
    destruct (decide (Forall (λ c, c = None) (s_values s))) as [Hall|Hnot].
    { by apply all_null_length in Hall. }
    apply not_Forall_Exists in Hnot; [|apply _].
    apply Exists_exists in Hnot as (c & Hc & Hne). rewrite Hv in Hc.
    change (map ?g all_data) with (g <$> all_data) in Hc.
    apply list_elem_of_fmap in Hc as (r & -> & Hr). eauto.
  - intros (Hk & Hv & r & Hr & Hne). assert (Hs : s ∈ df) by by apply Hval.
    split; [|done].
    pose proof (normalised_height _ _ _ Hs) as [Hh Hl]. fold df in Hh. rewrite Hh, <- Hl.
    unfold null_count. rewrite all_null_length, Forall_forall. intros Hall.
    apply Hne, Hall. rewrite Hv.
    change (map ?g all_data) with (g <$> all_data). by apply list_elem_of_fmap_2'  with r.
Qed.

Lemma final_table_NoDup all_data : NoDup (column_names (final_table all_data)).
Proof.
  unfold final_table, drop_null_columns.
  set (df := map_elements replace_with_none (from_records all_data)).
  assert (Hsub : column_names (filter (λ s, null_count s ≠ df_height df) df)
                   `sublist_of` column_names df).
  { unfold column_names. change (map s_name ?l) with (s_name <$> l).
    apply fmap_sublist, sublist_filter. }
  assert (Hnd : NoDup (column_names df)).
  { unfold df. rewrite map_elements_names, from_records_names. apply first_seen_NoDup. }
  by eapply sublist_NoDup.
Qed.

Lemma final_table_cell all_data k i r :
  all_data !! i = Some r →
  replace_with_none (dict_get k r) ≠ None →
  cell (final_table all_data) k i = Some (replace_with_none (dict_get k r)).
Proof.
  intros Hi Hne.
  set (s := Series k (map (λ r, replace_with_none (dict_get k r)) all_data)).
  assert (Hs : s ∈ final_table all_data).
  { apply final_table_elem. simpl. split; [|split; [done|]].
    - apply from_records_key. exists r. split; [by eapply list_elem_of_lookup_2|].
      apply dict_get_keys. destruct (dict_get k r) eqn:E; [eauto|].
      exfalso. apply Hne. apply replace_with_none_None. unfold sentinels. set_solver.
    - exists r. split; [by eapply list_elem_of_lookup_2|done]. }
  unfold cell. rewrite (column_of_elem _ s (final_table_NoDup all_data) Hs : column _ k = _).
  unfold s. cbn [s_values]. change (map ?f all_data) with (f <$> all_data).
  by rewrite list_lookup_fmap, Hi.
Qed.

Lemma dcm_path_not_sentinel p :
  Str.endswith p ".dcm" = true → replace_with_none (Some p) = Some p.
Proof.
  intros Hp. apply replace_with_none_other. unfold sentinels.
  rewrite !elem_of_cons, elem_of_nil.
  intros [[= ->]|[[= ->]|[[= ->]|[[= ->]|[|[]]]]]]; done.
Qed.

Lemma final_table_kept all_data k :
  k ∈ column_names (final_table all_data) ↔
  k ∈ column_names (from_records all_data) ∧
  ∃ r, r ∈ all_data ∧ replace_with_none (dict_get k r) ≠ None.
Proof.
  unfold column_names at 1. change (map s_name ?l) with (s_name <$> l).
  rewrite list_elem_of_fmap. split.
  - intros (s & -> & Hs). apply final_table_elem in Hs. naive_solver.
  - intros [Hk Hr].
    exists (Series k (map (λ r, replace_with_none (dict_get k r)) all_data)).
    split; [done|]. by apply final_table_elem.
Qed.

(** C5: after concatenation and sentinel normalisation the merge stage
    keeps exactly the columns that have a non-missing cell in some row: the
    columns before the drop are the union of the field names of all
    records, a column of that union is dropped if and only if it is
    missing in every row, and a column that stays keeps its normalised
    cells, one per record. *)
Theorem final_table_columns (all_data : list Record) (k : string) :
  (k ∈ column_names (from_records all_data) ↔
     ∃ r, r ∈ all_data ∧ k ∈ dict_keys r) ∧
  (k ∈ column_names (final_table all_data) ↔
     k ∈ column_names (from_records all_data) ∧
     ∃ r, r ∈ all_data ∧ replace_with_none (dict_get k r) ≠ None) ∧
  (k ∈ column_names (from_records all_data) ∧
   k ∉ column_names (final_table all_data) ↔
     k ∈ column_names (from_records all_data) ∧
     ∀ r, r ∈ all_data → replace_with_none (dict_get k r) = None) ∧
  (∀ s, column (final_table all_data) k = Some s →
        s_values s = map (λ r, replace_with_none (dict_get k r)) all_data).
Proof.
  split; [apply from_records_key|]. split; [apply final_table_kept|]. split.
  - rewrite final_table_kept. split.
    + intros [Hk Hn]. split; [done|]. intros r Hr.
      destruct (replace_with_none (dict_get k r)) eqn:E; [|done].
      exfalso. apply Hn. split; [done|]. exists r. by rewrite E.
    + intros [Hk Hall]. split; [done|]. intros [_ (r & Hr & Hne)]. by apply Hne, Hall.
  - intros s [Hs <-]%column_Some_elem. by apply final_table_elem in Hs as (_ & ? & _).
Qed.

(** ** Running programs *)

Lemma run_bind {A C} (p : prog A) (f : A → prog C) w :
  run (bind p f) w = obind (run p w) (λ a w', run (f a) w').
Proof.
  revert w. induction p as [a|e|c|B a k IHk h IHh]; intros w; simpl; try done.
  destruct (perform a w) as [[[b|e] w']|]; simpl; auto.
Qed.

Lemma run_try_except {A} (p : prog A) (handler : exn → prog A) w :
  run (try_except p handler) w =
  match run p w with
  | Raise e w' => run (handler e) w'
  | o => o
  end.
Proof.
  revert w. induction p as [a|e|c|B a k IHk h IHh]; intros w; simpl; try done.
  destruct (perform a w) as [[[b|e] w']|]; simpl; auto.
Qed.

(** A pool with a single future does what [run] does. *)
Lemma run_pool_alone (p : prog unit) w :
  ∃ n,
    match run p w with
    | Ok _ w' => run_pool (replicate n 0) [p] w = ([Ret ()], w')
    | Raise e w' => run_pool (replicate n 0) [p] w = ([Throw e], w')
    | Exited c w' => run_pool (replicate n 0) [p] w = ([SysExit c], w')
    | Waits w' =>
        ∃ q, run_pool (replicate n 0) [p] w = ([q], w') ∧ pool_step 0 [q] w' = None
    end.
Proof.
  revert w. induction p as [[]|e|c|B a k IHk h IHh]; intros w;
    try (by exists 0).
  assert (Hstep : ∀ n, run_pool (replicate (S n) 0) [Act a k h] w =
            match perform a w with
            | Some (Returns b, w1) => run_pool (replicate n 0) [k b] w1
            | Some (Raises e, w1) => run_pool (replicate n 0) [h e] w1
            | None => run_pool (replicate n 0) [Act a k h] w
            end).
  { intros n. cbn [replicate run_pool]. unfold pool_step. simpl.
    by destruct (perform a w) as [[[b|e] w1]|]. }
  simpl. destruct (perform a w) as [[[b|e] w1]|] eqn:Hp.
  - destruct (IHk b w1) as [n Hn]. exists (S n). by rewrite Hstep.
  - destruct (IHh e w1) as [n Hn]. exists (S n). by rewrite Hstep.
  - exists 0. eexists. split; [done|]. unfold pool_step. simpl. by rewrite Hp.
Qed.

(** ** The merge stage, run *)

Lemma add_stdout_nil w : add_stdout [] w = w.
Proof. destruct w. unfold add_stdout. simpl. by rewrite app_nil_r. Qed.

Lemma add_stdout_app l1 l2 w : add_stdout l2 (add_stdout l1 w) = add_stdout (l1 ++ l2) w.
Proof. destruct w. unfold add_stdout. simpl. by rewrite app_assoc. Qed.

Lemma run_load_partial_files names all_data w files :
  temp_dir w = Some files →
  run (load_partial_files names all_data) w =
  Ok (all_data ++ flat_map (batch_records files) names)
     (add_stdout (flat_map (load_complaint files) names) w).
Proof.
  revert all_data w. induction names as [|name names IH]; intros all_data w Htmp.
  - simpl. by rewrite app_nil_r, add_stdout_nil.
  - cbn [load_partial_files flat_map]. rewrite run_bind, run_try_except. simpl. rewrite Htmp.
    unfold batch_records, load_complaint.
    destruct (files !! name) as [[|records]|]; simpl;
      rewrite IH by done; rewrite ?add_stdout_app, <- ?app_assoc; done.
Qed.

Lemma run_merge_some w files :
  temp_dir w = Some files →
  run merge_partial_results_and_cleanup w =
  Ok () (set_temp_dir None
           match json_names files with
           | [] =>
               add_stdout ["No DICOM files were processed. No CSV file will be generated."]
                 (add_stdout
                    ["Mergging all partial results and cleaning up temporary files..."] w)
           | _ =>
               set_output (Some (final_table (merged_rows files)))
                 (add_stdout (flat_map (load_complaint files) (json_names files))
                    (add_stdout
                       ["Mergging all partial results and cleaning up temporary files..."] w))
           end).
Proof.
  intros Htmp. unfold merge_partial_results_and_cleanup, merged_rows.
  rewrite run_bind. cbn [run act perform obind]. rewrite run_bind.
  cbn [run act perform obind]. replace (temp_dir (add_stdout _ w)) with (Some files) by done.
  cbn [obind]. fold (json_names files).
  destruct (json_names files) as [|name names] eqn:Hnames.
  - rewrite run_bind. cbn [run act perform obind].
    by replace (temp_dir (add_stdout _ (add_stdout _ w))) with (Some files) by done.
  - rewrite run_bind, (run_load_partial_files _ _ _ files) by done.
    cbn [obind app]. rewrite run_bind. cbn [run act perform obind].
    by replace (temp_dir (set_output _ (add_stdout _ (add_stdout _ w))))
      with (Some files) by done.
Qed.




(** ** Chunks and completion orders *)

Lemma insert_at_Permutation {A} i (x : A) l : insert_at i x l ≡ₚ x :: l.
Proof.
  unfold insert_at. rewrite <- Permutation_middle. by rewrite take_drop.
Qed.

Lemma permute_Permutation {A} order (l : list A) : permute order l ≡ₚ l.
Proof.
  revert order. induction l as [|x l IH]; intros order; simpl; [done|].
  rewrite insert_at_Permutation. by rewrite IH.
Qed.

(** Every order of completion is the [permute] of some [order]. *)
Lemma permute_complete {A} (l l' : list A) : l' ≡ₚ l → ∃ order, permute order l = l'.
Proof.
  revert l'. induction l as [|x l IH]; intros l' Hperm.
  - apply Permutation_nil_r in Hperm as ->. by exists [].
  - assert (Hx : x ∈ l') by (rewrite Hperm; left).
    apply list_elem_of_split in Hx as (l1 & l2 & ->).
    symmetry in Hperm. apply Permutation_cons_app_inv in Hperm. symmetry in Hperm.
    destruct (IH _ Hperm) as [order Horder].
    exists (length l1 :: order). simpl. rewrite Horder. unfold insert_at.
    by rewrite take_app_length, drop_app_length.
Qed.

Lemma concat_Permutation {A} (l l' : list (list A)) : l ≡ₚ l' → concat l ≡ₚ concat l'.
Proof.
  induction 1 as [|x l l' _ IH|x y l|l l' l'' _ IH1 _ IH2]; simpl.
  - done.
  - by rewrite IH.
  - rewrite !app_assoc. f_equiv. apply Permutation_app_comm.
  - by etrans.
Qed.

Lemma concat_slices {A} (l : list A) c m :
  concat (map (λ i, slice l i (i + c)) (map (λ k, k * c) (seq 0 m))) = take (m * c) l.
Proof.
  induction m as [|m IH]; [done|].
  rewrite seq_S, !map_app, concat_app, IH. simpl. rewrite app_nil_r.
  unfold slice. replace (m * c + c - m * c) with c by lia.
  replace (c + m * c) with (m * c + c) by lia.
  apply take_take_drop.
Qed.

Lemma concat_chunks {A} (l : list A) c :
  0 < c →
  concat (map (λ i, slice l i (i + c)) (range_step (length l) c)) = l.
Proof.
  intros Hc. unfold range_step. rewrite concat_slices. apply take_ge.
  pose proof (Nat.div_mod_eq (length l + c - 1) c) as Hdm.
  pose proof (Nat.mod_upper_bound (length l + c - 1) c). nia.
Qed.

(** ** Stringifier and per-file isolation *)

Section PipelineFacts.

Context {obj : Type}.
Variables json_dumps py_str : value obj → res string.
Variable dicom_tag_to_dict : string → res (dict (value obj)).

Local Abbreviation stringify := (stringify_value obj json_dumps py_str).
Local Abbreviation pfile := (process_file obj json_dumps py_str dicom_tag_to_dict).
Local Abbreviation pfolder := (process_folder obj json_dumps py_str dicom_tag_to_dict).

Lemma bytes_hex_length b : String.length (bytes_hex b) = 2 * length b.
Proof. induction b as [|x b IH]; simpl; [done|]. rewrite IH. lia. Qed.

Lemma stringify_value_returns v : ∃ s, stringify v = Returns s.
Proof.
  destruct v; simpl; eauto.
  - destruct (json_dumps _); eauto.
  - destruct (json_dumps _); eauto.
  - destruct (json_dumps _); eauto.
  - destruct (py_str _); eauto.
Qed.

(** C3: [stringify_value] returns text for every value and never raises.
    [None] gives "N/A"; bytes give their hexadecimal text, two digits per
    byte; a list, dict or set gives what [json.dumps] returns for it; any
    other value gives what [str] returns for it; and when [json.dumps] or
    [str] raises, the result is "Error: " followed by the message of the
    exception. *)
Theorem stringify_value_total (v : value obj) :
  ∃ s, stringify v = Returns s ∧
    match v with
    | VNone => s = "N/A"
    | VBytes b => s = bytes_hex b ∧ String.length s = 2 * length b
    | VList _ | VDict _ | VSet _ =>
        match json_dumps v with
        | Returns text => s = text
        | Raises e => s = "Error: " +:+ exn_msg e ∧ Str.startswith s "Error: " = true
        end
    | VObj _ =>
        match py_str v with
        | Returns text => s = text
        | Raises e => s = "Error: " +:+ exn_msg e ∧ Str.startswith s "Error: " = true
        end
    end.
Proof.
  destruct v; simpl.
  - eauto.
  - eexists. split; [done|]. split; [done|]. apply bytes_hex_length.
  - destruct (json_dumps _); eexists; repeat split; reflexivity.
  - destruct (json_dumps _); eexists; repeat split; reflexivity.
  - destruct (json_dumps _); eexists; repeat split; reflexivity.
  - destruct (py_str _); eexists; repeat split; reflexivity.
Qed.

Lemma stringify_items_returns d : ∃ r, stringify_items obj json_dumps py_str d = Returns r.
Proof.
  induction d as [|[key v] d [r IH]]; simpl; [eauto|].
  destruct (stringify_value_returns v) as [s ->]. rewrite IH. eauto.
Qed.

Lemma process_file_failure p err :
  dicom_tag_to_dict p = Raises err →
  pfile p = ([("DicomPath", p)],
             ["Error processing file " +:+ p +:+ ": " +:+ exn_msg err]).
Proof. intros H. unfold process_file. by rewrite H. Qed.

Lemma process_file_success p d :
  dicom_tag_to_dict p = Returns d →
  ∃ r, stringify_items obj json_dumps py_str d = Returns r ∧
       pfile p = (dict_set "DicomPath" p r, []).
Proof.
  intros H. unfold process_file. rewrite H.
  destruct (stringify_items_returns d) as [r ->]. eauto.
Qed.

Lemma process_file_DicomPath p : dict_get "DicomPath" (fst (pfile p)) = Some p.
Proof.
  destruct (dicom_tag_to_dict p) as [d|err] eqn:E.
  - destruct (process_file_success p d E) as (r & _ & ->). apply dict_get_set_eq.
  - by rewrite (process_file_failure p err E).
Qed.

Lemma process_file_path_only p :
  raises (dicom_tag_to_dict p) = true → path_only (fst (pfile p)) = true.
Proof.
  destruct (dicom_tag_to_dict p) as [d|err] eqn:E; [done|]. intros _.
  by rewrite (process_file_failure p err E).
Qed.

Lemma run_process_folder folder order w :
  run (pfolder folder order) w =
  match lookup_dir w folder with
  | None => Raise no_such_file w
  | Some e =>
      let completed :=
        completed_chunks (dcm_filepaths folder (dirnames e ++ filenames e)) order in
      let all_results := flat_map (map pfile) completed in
      Ok (map fst all_results)
         (add_stdout (flat_map snd all_results)
            (add_journal (map EvDecode (concat completed)) w))
  end.
Proof. unfold process_folder. simpl. by destruct (lookup_dir w folder). Qed.

Lemma completed_chunks_Permutation filepaths order :
  concat (completed_chunks filepaths order) ≡ₚ filepaths.
Proof.
  unfold completed_chunks.
  etrans; [apply concat_Permutation, permute_Permutation|].
  rewrite concat_chunks; [done|]. unfold chunk_size. lia.
Qed.

Lemma process_folder_records filepaths order :
  map fst (flat_map (map pfile) (completed_chunks filepaths order)) =
  map (λ p, fst (pfile p)) (concat (completed_chunks filepaths order)).
Proof.
  rewrite flat_map_concat_map, <- concat_map, map_map. done.
Qed.

Lemma filter_map_length {A B} (f : A → B) (P : A → Prop) (Q : B → Prop)
    `{∀ x, Decision (P x)} `{∀ y, Decision (Q y)} (l : list A) :
  (∀ x, P x → Q (f x)) →
  (length (filter P l) ≤ length (filter Q (map f l)))%nat.
Proof.
  intros HPQ. induction l as [|x l IH]; [done|]. simpl.
  rewrite !filter_cons. destruct (decide (P x)) as [HP|HP].
  - rewrite decide_True by auto. simpl. lia.
  - destruct (decide (Q (f x))); simpl; lia.
Qed.

(** C2 (as amended): a file whose decoding raises makes [process_file]
    return, not raise: the record holds the source path and nothing else,
    and the error is only printed.  For a folder that can be listed,
    [process_folder] returns one record per [.dcm] entry, the records of
    [process_file] on these paths up to the order in which the chunks
    complete; so with n such entries of which k fail to decode it returns n
    records, at least k of them holding only the path. *)
Theorem process_folder_isolates_failures folder order w e :
  lookup_dir w folder = Some e →
  let filepaths := dcm_filepaths folder (dirnames e ++ filenames e) in
  (∀ p err, dicom_tag_to_dict p = Raises err →
     pfile p = ([("DicomPath", p)],
                ["Error processing file " +:+ p +:+ ": " +:+ exn_msg err])) ∧
  ∃ rs w',
    run (pfolder folder order) w = Ok rs w' ∧
    rs ≡ₚ map (λ p, fst (pfile p)) filepaths ∧
    length rs = length filepaths ∧
    (length (filter (λ p, raises (dicom_tag_to_dict p) = true) filepaths)
       ≤ length (filter (λ r, path_only r = true) rs))%nat.
Proof.
  intros He filepaths. split; [apply process_file_failure|].
  rewrite run_process_folder, He. cbv zeta. eexists _, _. split; [done|].
  fold filepaths. rewrite process_folder_records.
  assert (Hperm : map (λ p, fst (pfile p)) (concat (completed_chunks filepaths order))
                  ≡ₚ map (λ p, fst (pfile p)) filepaths).
  { apply Permutation_map, completed_chunks_Permutation. }
  split; [done|]. split.
  - rewrite Hperm. apply length_map.
  - rewrite Hperm. apply filter_map_length. intros p. apply process_file_path_only.
Qed.

(** Rows of the table come from [process_folder], which only passes paths
    that end in ".dcm". *)
Lemma process_folder_rows folder order w rs w' r :
  run (pfolder folder order) w = Ok rs w' → r ∈ rs →
  ∃ p, r = fst (pfile p) ∧ Str.endswith p ".dcm" = true.
Proof.
  rewrite run_process_folder. destruct (lookup_dir w folder) as [e|]; [|done].
  cbv zeta. intros [= <- _]. rewrite process_folder_records.
  change (map ?f ?l) with (f <$> l). intros (p & -> & Hp)%list_elem_of_fmap.
  exists p. split; [done|].
  rewrite completed_chunks_Permutation in Hp. unfold dcm_filepaths in Hp.
  change (map ?f ?l) with (f <$> l) in Hp.
  apply list_elem_of_fmap in Hp as (f & -> & Hf).
  apply list_elem_of_filter in Hf as [Hf _]. by apply endswith_join.
Qed.

(** C10: every record that [process_file] returns, from the success branch
    and from the failure branch alike, maps "DicomPath" to the path it was
    called with.  In the final table built from the records that
    [process_folder] returned for any folders, every row therefore shows
    the path of its source file in the "DicomPath" column, and when the
    table has a row that column is among the columns the merge keeps. *)
Theorem dicom_path_column_kept
    (batches : list (list Record)) (calls : list (string * list nat * world)) :
  Forall2 (λ rs c, ∃ w', run (pfolder c.1.1 c.1.2) c.2 = Ok rs w') batches calls →
  let all_data := concat batches in
  (∀ p, dict_get "DicomPath" (fst (pfile p)) = Some p) ∧
  (∀ i r, all_data !! i = Some r →
     ∃ p, r = fst (pfile p) ∧
          cell (final_table all_data) "DicomPath" i = Some (Some p)) ∧
  (all_data ≠ [] → "DicomPath" ∈ column_names (final_table all_data)).
Proof.
  intros Hcalls all_data.
  assert (Hrows : ∀ r, r ∈ all_data →
            ∃ p, r = fst (pfile p) ∧ Str.endswith p ".dcm" = true).
  { intros r Hr. apply list_elem_of_In, in_concat in Hr as (rs & Hrs & Hr).
    apply list_elem_of_In, list_elem_of_lookup_1 in Hrs as [j Hj].
    destruct (Forall2_lookup_l _ _ _ _ _ Hcalls Hj) as (c & _ & w' & Hrun).
    eapply process_folder_rows; [done|]. by apply list_elem_of_In. }
  assert (Hcell : ∀ r, r ∈ all_data →
            ∃ p, r = fst (pfile p) ∧
                 replace_with_none (dict_get "DicomPath" r) = Some p).
  { intros r (p & -> & Hp)%Hrows. exists p. split; [done|].
    rewrite process_file_DicomPath. by apply dcm_path_not_sentinel. }
  split; [apply process_file_DicomPath|]. split.
  - intros i r Hi.
    destruct (Hcell r) as (p & -> & Hp); [by eapply list_elem_of_lookup_2|].
    exists p. split; [done|]. rewrite (final_table_cell _ _ _ _ Hi); rewrite Hp; done.
  - intros Hne. destruct all_data as [|r rest] eqn:E; [done|].
    destruct (Hcell r) as (p & Hr & Hp); [left|].
    apply final_table_kept. split.
    + apply from_records_key. exists r. split; [left|].
      apply dict_get_keys. rewrite Hr, process_file_DicomPath. eauto.
    + exists r. split; [left|]. by rewrite Hp.
Qed.

End PipelineFacts.

(** C2 as stated fails: the record of a file that cannot be decoded holds
    the path and no error marker. *)
Lemma degraded_record_has_no_error_marker :
  raises (demo_decoder "/data/s1/b.dcm") = true ∧
  fst (process_file unit demo_dumps demo_str demo_decoder "/data/s1/b.dcm")
    = [("DicomPath", "/data/s1/b.dcm")] ∧
  ¬ carries_error_marker
      (fst (process_file unit demo_dumps demo_str demo_decoder "/data/s1/b.dcm")).
Proof.
  split; [done|]. split; [done|]. intros (k & v & Hget & Hne).
  change (dict_get k [("DicomPath", "/data/s1/b.dcm")] = Some v) in Hget.
  unfold dict_get in Hget.
  destruct (String.eqb_spec "DicomPath" k) as [<-|]; done.
Qed.

Lemma process_folder_isolates_failures_witness :
  ∃ rs w',
    run (process_folder unit demo_dumps demo_str demo_decoder "/data/s1" []) demo_world
      = Ok rs w' ∧
    length rs = 2 ∧
    (1 ≤ length (filter (λ r, path_only r = true) rs))%nat.
Proof.
  destruct (process_folder_isolates_failures demo_dumps demo_str demo_decoder
              "/data/s1" [] demo_world demo_entry eq_refl)
    as (_ & rs & w' & Hrun & _ & Hlen & Hk).
  exists rs, w'. split; [exact Hrun|]. split; [exact Hlen|exact Hk].
Defined.

Lemma dicom_path_column_kept_witness :
  "DicomPath" ∈ column_names
    (final_table (concat
       [[fst (process_file unit demo_dumps demo_str demo_decoder "/data/s1/a.dcm");
         fst (process_file unit demo_dumps demo_str demo_decoder "/data/s1/b.dcm")]])).
Proof.
  refine (proj2 (proj2 (dicom_path_column_kept demo_dumps demo_str demo_decoder
            [_] [("/data/s1", [], demo_world)] _)) _).
  - constructor; [|constructor]. eexists. reflexivity.
  - discriminate.
Defined.

(** ** Checkpoint store: reading *)

Lemma run_load_processed_folders w :
  run load_processed_folders w =
  match checkpoint w with
  | None => Ok ∅ w
  | Some content =>
      if lock_ex w then Waits w
      else match content with
           | Undecodable => Ok ∅ w
           | Document doc =>
               match py_set doc with
               | Returns s => Ok s w
               | Raises e =>
                   match exn_cls e with
                   | FileNotFoundError | JSONDecodeError => Ok ∅ w
                   | _ => Raise e w
                   end
               end
           | Unloadable f => Raise (load_failure_exn f) w
           end
  end.
Proof.
  destruct w as [inp tmp [[|doc|[]]|] sh [|] out so jn]; try done.
  unfold load_processed_folders. simpl.
  destruct (py_set doc) as [s|e]; simpl; [done|]. by destruct (exn_cls e).
Qed.

Lemma to_hashable_TypeError j e : to_hashable j = Raises e → exn_cls e = TypeError.
Proof. destruct j; simpl; intros [= <-]; done. Qed.

Lemma set_of_items_TypeError items e :
  set_of_items items = Raises e → exn_cls e = TypeError.
Proof.
  induction items as [|j items IH]; simpl; [done|].
  destruct (to_hashable j) as [h|e'] eqn:Hj.
  - destruct (set_of_items items); [done|]. intros [= <-]. by apply IH.
  - intros [= <-]. by eapply to_hashable_TypeError.
Qed.

Lemma py_set_TypeError doc e : py_set doc = Raises e → exn_cls e = TypeError.
Proof.
  destruct doc; simpl; try (intros [= <-]; done). apply set_of_items_TypeError.
Qed.

Lemma set_of_items_hashables (hs : list hashable) :
  set_of_items (map of_hashable hs) = Returns (list_to_set hs).
Proof.
  induction hs as [|h hs IH]; simpl; [done|]. rewrite IH. by destruct h.
Qed.

Lemma py_set_strings (ids : list string) :
  py_set (JArr (map JStr ids)) = Returns (list_to_set (map HStr ids)).
Proof.
  simpl. rewrite <- (set_of_items_hashables (map HStr ids)). by rewrite map_map.
Qed.

Lemma py_set_json_of_set (s : pyset) : py_set (json_of_set s) = Returns s.
Proof.
  unfold json_of_set. simpl. rewrite set_of_items_hashables.
  by rewrite list_to_set_elements_L.
Qed.

(** C6 (as amended): [load_processed_folders] returns the empty set, and
    does not raise, when the checkpoint file is missing and when
    [json.load] raises [JSONDecodeError] on it (text that is not valid
    JSON, the empty file included); when the text is a JSON array of
    strings it returns exactly the set of these strings, so it reads back
    the set that [mark_folder_as_processed] wrote.  With the file present
    the call first waits for the shared lock.  No other error is caught:
    valid JSON of another shape is passed to [set], and what [set] raises
    (a [TypeError]) leaves the call; so does what [json.load] raises
    besides [JSONDecodeError] ([UnicodeDecodeError] on bytes that are not
    text, [RecursionError] on text nested too deep).  In each case the file
    and the locks are as before. *)
Theorem load_processed_folders_tolerant (w : world) :
  run load_processed_folders w =
    match checkpoint w with
    | None => Ok ∅ w
    | Some content =>
        if lock_ex w then Waits w
        else match content with
             | Undecodable => Ok ∅ w
             | Document doc =>
                 match py_set doc with
                 | Returns s => Ok s w
                 | Raises e => Raise e w
                 end
             | Unloadable BadEncoding =>
                 Raise (Exn (OtherError "UnicodeDecodeError") "invalid start byte") w
             | Unloadable TooDeep =>
                 Raise (Exn (OtherError "RecursionError") "maximum recursion depth exceeded") w
             end
    end ∧
  (∀ ids, py_set (JArr (map JStr ids)) = Returns (list_to_set (map HStr ids))) ∧
  (∀ s, py_set (json_of_set s) = Returns s) ∧
  (∀ doc e, py_set doc = Raises e → exn_cls e = TypeError).
Proof.
  split; [|split; [apply py_set_strings|split; [apply py_set_json_of_set|apply py_set_TypeError]]].
  rewrite run_load_processed_folders.
  destruct (checkpoint w) as [[|doc|[]]|]; try done.
  destruct (lock_ex w); [done|].
  destruct (py_set doc) as [s|e] eqn:E; [done|].
  by rewrite (py_set_TypeError _ _ E).
Qed.

(** C6 as stated fails: a checkpoint file that holds [null] is not the
    serialized set, yet the call raises instead of returning the empty
    set. *)
Lemma load_processed_folders_null_raises :
  run load_processed_folders
      (World [] None (Some (Document JNull)) 0 false None [] [])
  = Raise (Exn TypeError "'NoneType' object is not iterable")
      (World [] None (Some (Document JNull)) 0 false None [] []).
Proof. reflexivity. Qed.

(** ** Empty input *)

Lemma find_no_dcm (entries : list walk_entry) :
  Forall (λ e, has_dcm e = false) entries → find has_dcm entries = None.
Proof.
  induction 1 as [|e entries He _ IH]; simpl; [done|]. by rewrite He.
Qed.

Lemma os_walk_no_dcm w top :
  Forall (λ e, has_dcm e = false) (input w) →
  find has_dcm (os_walk w top) = None.
Proof.
  intros H. apply find_no_dcm. unfold os_walk.
  rewrite Forall_forall in *. intros e [_ He]%list_elem_of_filter. auto.
Qed.

Lemma run_for_each_pure {A B} (f : A → prog B) (g : A → B) l w :
  (∀ x, run (f x) w = Ok (g x) w) →
  run (for_each f l) w = Ok (map g l) w.
Proof.
  intros Hf. induction l as [|x l IH]; simpl; [done|].
  rewrite run_bind, Hf. simpl. rewrite run_bind, IH. done.
Qed.

Lemma run_find_dcm_folders_none root_dir w :
  Forall (λ e, has_dcm e = false) (input w) →
  run (find_dcm_folders root_dir) w = Ok [] w.
Proof.
  intros Hno. unfold find_dcm_folders.
  rewrite run_bind. simpl. rewrite run_bind.
  rewrite (run_for_each_pure _ (λ _, None)).
  - simpl. replace (omap truthy (map (λ _, None) (os_walk w root_dir))) with (@nil string).
    + done.
    + induction (os_walk w root_dir); simpl; done.
  - intros e. unfold check_dcm_files. simpl. by rewrite os_walk_no_dcm.
Qed.

Lemma run_pool_nil sched w : run_pool sched [] w = ([], w).
Proof. induction sched as [|i sched IH]; simpl; done. Qed.

Section EmptyInput.

Context {obj : Type}.
Variables json_dumps py_str : value obj → res string.
Variable dicom_tag_to_dict : string → res (dict (value obj)).

Local Abbreviation collect :=
  (collect_and_process_dicom_data obj json_dumps py_str dicom_tag_to_dict).
Local Abbreviation main := (main obj json_dumps py_str dicom_tag_to_dict).

Lemma collect_no_dcm root_dir o w :
  Forall (λ e, has_dcm e = false) (input w) →
  temp_dir w = None →
  checkpoint w = None →
  collect root_dir o w =
  Ok () (add_stdout ["No DICOM files were processed. No CSV file will be generated."]
          (add_stdout ["Mergging all partial results and cleaning up temporary files..."] w)).
Proof.
  intros Hno Htmp Hck. unfold collect_and_process_dicom_data.
  assert (Hmk : run create_temp_dir w = Ok () (set_temp_dir (Some ∅) w)).
  { unfold create_temp_dir. simpl. by rewrite Htmp. }
  rewrite run_bind, Hmk. cbn [obind].
  rewrite run_bind, run_find_dcm_folders_none by done. cbn [obind].
  rewrite run_bind, run_load_processed_folders.
  replace (checkpoint (set_temp_dir (Some ∅) w)) with (@None checkpoint_file) by done.
  cbn [obind run fst snd map]. rewrite run_pool_nil. cbn [results].
  destruct w; simpl in *; subst. reflexivity.
Qed.

Lemma main_no_dcm path o w :
  is_Some (lookup_dir w path) →
  Forall (λ e, has_dcm e = false) (input w) →
  temp_dir w = None →
  checkpoint w = None →
  main path o w =
  Raise no_such_file
    (add_stdout ["Collecting DICOM metadata...";
                 "Mergging all partial results and cleaning up temporary files...";
                 "No DICOM files were processed. No CSV file will be generated."] w).
Proof.
  intros Hdir Hno Htmp Hck. unfold main.
  assert (Hfirst : run (let! isdir := act (IsDir path) in
                        if isdir : bool then act (Print ["Collecting DICOM metadata..."])
                        else SysExit 1) w
                   = Ok () (add_stdout ["Collecting DICOM metadata..."] w)).
  { simpl. by rewrite bool_decide_eq_true_2. }
  rewrite Hfirst. cbn [obind].
  rewrite collect_no_dcm by done. cbn [obind].
  clear Hfirst Hdir. destruct w; simpl in *; subst. simpl.
  unfold add_stdout. simpl. by rewrite <- !app_assoc.
Qed.

End EmptyInput.

(** C7, at an input tree without any [.dcm] file and a fresh output
    directory: whatever the scheduling, the merge stage writes no output
    and removes the temp directory, and then [main] raises
    [FileNotFoundError] when it removes the checkpoint file, which no
    worker ever created.  The run does not complete without error. *)
Theorem main_empty_input_raises (o : oracle) :
  main unit demo_dumps demo_str demo_decoder "/scans" o empty_world =
  Raise (Exn FileNotFoundError "No such file or directory")
    (World (input empty_world) None None 0 false None
       ["Collecting DICOM metadata...";
        "Mergging all partial results and cleaning up temporary files...";
        "No DICOM files were processed. No CSV file will be generated."] []).
Proof.
  etrans; [apply main_no_dcm|reflexivity].
  - by eexists.
  - repeat constructor.
  - done.
  - done.
Qed.

(** ** Result before checkpoint *)

Lemma extends_refl w : extends w w.
Proof. by intros ev. Qed.

Lemma extends_trans w1 w2 w3 : extends w1 w2 → extends w2 w3 → extends w1 w3.
Proof. intros H12 H23 ev Hev. by apply H23, H12. Qed.

Lemma saved_extends w w' folder : extends w w' → saved w folder → saved w' folder.
Proof. intros Hext. apply Hext. Qed.

(** Case analysis on what an action finds on disk. *)
Ltac perform_cases a Hp :=
  destruct a; simpl in Hp;
  repeat match type of Hp with
    | context [match ?x with _ => _ end] => destruct x eqn:?
    end;
  simplify_eq.

Lemma perform_extends {B} (a : action B) w r w' :
  perform a w = Some (r, w') → extends w w'.
Proof.
  intros Hp. perform_cases a Hp; intros ev Hev; simpl; rewrite ?elem_of_app; auto.
Qed.

Lemma perform_checkpoint_before {B} (a : action B) w r w' folder :
  perform a w = Some (r, w') →
  checkpoint_safe w → dump_ok a w →
  HStr folder ∈ checkpoint_set w' → saved w folder.
Proof.
  intros Hp Hsafe Hdump.
  assert (Hkeep : checkpoint w' = checkpoint w →
            HStr folder ∈ checkpoint_set w' → saved w folder).
  { intros Heq Hin. apply Hsafe. unfold checkpoint_set in *. by rewrite <- Heq. }
  perform_cases a Hp; try (by apply Hkeep); try done.
  intros Hin. by apply Hdump.
Qed.

Lemma perform_checkpoint_safe {B} (a : action B) w r w' :
  perform a w = Some (r, w') →
  checkpoint_safe w → dump_ok a w → checkpoint_safe w'.
Proof.
  intros Hp Hsafe Hdump folder Hin.
  apply (saved_extends w); [by eapply perform_extends|].
  by eapply perform_checkpoint_before.
Qed.

Lemma wp_bind {A C} (p : prog A) (f : A → prog C) Q Qe w :
  wp p (λ a w', wp (f a) Q Qe w') Qe w → wp (bind p f) Q Qe w.
Proof.
  revert w. induction p as [a|e|c|B a k IHk h IHh]; intros w; simpl; try done.
  intros Hwp w1 Hext Hsafe. destruct (Hwp w1 Hext Hsafe) as [Hd Hnext].
  split; [done|]. intros [b|e] w2 Hp; [apply IHk|apply IHh]; apply (Hnext _ _ Hp).
Qed.

Lemma wp_try_except {A} (p : prog A) (handler : exn → prog A) Q Qe w :
  wp p Q (λ e w', wp (handler e) Q Qe w') w → wp (try_except p handler) Q Qe w.
Proof.
  revert w. induction p as [a|e|c|B a k IHk h IHh]; intros w; simpl; try done.
  intros Hwp w1 Hext Hsafe. destruct (Hwp w1 Hext Hsafe) as [Hd Hnext].
  split; [done|]. intros [b|e] w2 Hp; [apply IHk|apply IHh]; apply (Hnext _ _ Hp).
Qed.

Lemma wp_extends (p : prog unit) w w' :
  extends w w' → wp p (λ _ _, True) (λ _ _, True) w → wp p (λ _ _, True) (λ _ _, True) w'.
Proof.
  intros Hext. destruct p as [a|e|c|B a k h]; simpl; try done.
  intros Hwp w1 Hext1. apply Hwp. by eapply extends_trans.
Qed.

Lemma wp_quiet {A} (p : prog A) (Q : A → world → Prop) (Qe : exn → world → Prop) w :
  quiet p →
  (∀ a w', extends w w' → Q a w') →
  (∀ e w', extends w w' → Qe e w') →
  wp p Q Qe w.
Proof.
  revert w. induction p as [a|e|c|B a k IHk h IHh]; intros w Hq HQ HQe; simpl.
  - apply HQ, extends_refl.
  - apply HQe, extends_refl.
  - done.
  - destruct Hq as (Hnd & Hk & Hh). intros w1 Hext Hsafe. split.
    { destruct a; simpl in *; done. }
    intros r w2 Hp. pose proof (perform_extends _ _ _ _ Hp) as Hext2.
    assert (extends w w2) by (eapply extends_trans; [done|done]).
    destruct r as [b|e]; [apply IHk|apply IHh]; auto;
      intros; [apply HQ|apply HQe|apply HQ|apply HQe]; by eapply extends_trans.
Qed.

(** One step of the pool keeps the invariant.  *)
Lemma pool_step_safe i futures w futures' w' :
  pool_safe futures w → pool_step i futures w = Some (futures', w') →
  pool_safe futures' w'.
Proof.
  intros [Hsafe Hall] Hstep. unfold pool_step in Hstep.
  destruct (futures !! i) as [p|] eqn:Hi; [|done].
  destruct p as [a|e|c|B a k h]; try done.
  destruct (perform a w) as [[r w2]|] eqn:Hp; [|done].
  pose proof (perform_extends _ _ _ _ Hp) as Hext.
  pose proof (Forall_lookup_1 _ _ _ _ Hall Hi) as Hwp. simpl in Hwp.
  destruct (Hwp w (extends_refl w) Hsafe) as [Hd Hnext].
  specialize (Hnext _ _ Hp).
  assert (Hothers : Forall (λ p, wp p (λ _ _, True) (λ _ _, True) w') futures).
  { eapply Forall_impl; [done|]. intros p. destruct r; simplify_eq; by apply wp_extends. }
  destruct r as [b|e]; simplify_eq; (split;
    [by eapply perform_checkpoint_safe|by apply Forall_insert]).
Qed.

Lemma run_pool_safe sched futures w :
  pool_safe futures w →
  pool_safe (run_pool sched futures w).1 (run_pool sched futures w).2.
Proof.
  revert futures w. induction sched as [|i sched IH]; intros futures w Hsafe; simpl; [done|].
  destruct (pool_step i futures w) as [[futures' w']|] eqn:Hstep; [|by apply IH].
  apply IH. by eapply pool_step_safe.
Qed.

Lemma wp_act {B} (a : action B) (Q : B → world → Prop) Qe w :
  (∀ w1, extends w w1 → checkpoint_safe w1 →
     dump_ok a w1 ∧
     ∀ r w2, perform a w1 = Some (r, w2) → extends w w2 →
       match r with
       | Returns b => Q b w2
       | Raises e => Qe e w2
       end) →
  wp (act a) Q Qe w.
Proof.
  intros H. unfold act. simpl. intros w1 Hext Hsafe.
  destruct (H w1 Hext Hsafe) as [Hd Hnext]. split; [done|].
  intros r w2 Hp. apply Hnext; [done|].
  eapply extends_trans; [done|]. by eapply perform_extends.
Qed.

(** An action other than a checkpoint dump whose outcome does not matter
    to what follows. *)
Lemma wp_act_any {B} (a : action B) (Q : B → world → Prop) Qe w :
  is_dump a = false →
  (∀ b w', extends w w' → Q b w') →
  (∀ e w', extends w w' → Qe e w') →
  wp (act a) Q Qe w.
Proof.
  intros Hnd HQ HQe. apply wp_act. intros w1 Hext Hsafe. split.
  { destruct a; simpl in *; done. }
  intros [b|e] w2 _ Hext2; auto.
Qed.

Lemma wp_load_processed_folders w (Q : pyset → world → Prop) Qe :
  (∀ s w', extends w w' → (∀ folder, HStr folder ∈ s → saved w' folder) → Q s w') →
  (∀ e w', extends w w' → Qe e w') →
  wp load_processed_folders Q Qe w.
Proof.
  intros HQ HQe.
  assert (Hhandler : ∀ e w', extends w w' →
            wp (match exn_cls e with
                | FileNotFoundError => Ret ∅
                | JSONDecodeError => Ret ∅
                | _ => Throw e
                end) Q Qe w').
  { intros e w' Hw'. destruct (exn_cls e); simpl; auto; apply HQ; set_solver. }
  assert (Hempty : ∀ w', extends w w' → Q ∅ w').
  { intros w' Hw'. apply HQ; [done|]. set_solver. }
  unfold load_processed_folders. apply wp_try_except.
  apply wp_bind, wp_act_any; [done| |intros; by apply Hhandler]. intros _ w1 Hw1.
  apply wp_bind, wp_act_any; [done| |intros; apply Hhandler; by eapply extends_trans].
  intros _ w2 Hw12.
  assert (Hw2 : extends w w2) by by eapply extends_trans.
  apply wp_bind, wp_try_except, wp_act. intros w3 Hw23 Hsafe. split; [done|].
  assert (Hw3 : extends w w3) by by eapply extends_trans.
  intros r w4 Hp _. simpl in Hp.
  destruct (checkpoint w3) as [[|doc|f]|] eqn:Hc; simplify_eq.
  - apply wp_bind, wp_act_any; [done| |]; intros; simpl;
      (apply Hempty || apply Hhandler); (eapply extends_trans; [exact Hw3|done]).
  - apply wp_bind, wp_act_any; [done| |].
    + intros _ w5 Hw45. unfold lift, doc_set.
      assert (Hw5 : extends w w5) by (eapply extends_trans; [exact Hw3|done]).
      assert (Hdoc : ∀ folder, HStr folder ∈ doc_set doc → saved w5 folder).
      { intros folder Hin. apply (saved_extends w4); [done|]. apply Hsafe.
        unfold checkpoint_set. by rewrite Hc. }
      unfold doc_set in Hdoc. destruct (py_set doc) as [s|e]; simpl.
      * by apply HQ.
      * by apply Hhandler.
    + intros e w5 Hw45. apply Hhandler. eapply extends_trans; [exact Hw3|done].
  - apply wp_bind, wp_act_any; [done| |]; intros; simpl;
      (apply Hempty || apply Hhandler); (eapply extends_trans; [exact Hw3|done]).
  - apply wp_bind, wp_act_any; [done| |]; intros; simpl;
      (apply Hempty || apply Hhandler); (eapply extends_trans; [exact Hw3|done]).
Qed.

Lemma doc_set_json_of_set (s : pyset) : doc_set (json_of_set s) = s.
Proof. unfold doc_set. by rewrite py_set_json_of_set. Qed.

Lemma wp_mark_folder_as_processed folder w :
  saved w folder →
  wp (mark_folder_as_processed folder) (λ _ _, True) (λ _ _, True) w.
Proof.
  intros Hsaved. unfold mark_folder_as_processed.
  apply wp_bind, wp_load_processed_folders; [|done].
  intros s w1 Hw1 Hs.
  apply wp_bind, wp_act_any; [done| |done]. intros _ w2 Hw2.
  apply wp_bind, wp_act_any; [done| |done]. intros _ w3 Hw3.
  apply wp_bind, wp_act; intros w4 Hw4 Hsafe. split.
  - simpl. rewrite doc_set_json_of_set. intros g [Hg|Hg]%elem_of_union.
    + apply elem_of_singleton in Hg as [= ->].
      apply (saved_extends w); [|done].
      eapply extends_trans; [exact Hw1|]. eapply extends_trans; [exact Hw2|].
      eapply extends_trans; [exact Hw3|exact Hw4].
    + apply (saved_extends w1); [|by apply Hs].
      eapply extends_trans; [exact Hw2|]. eapply extends_trans; [exact Hw3|exact Hw4].
  - intros [[]|e] w5 _ _; [|done]. by apply wp_act_any.
Qed.

Section ResultBeforeCheckpoint.

Context {obj : Type}.
Variables json_dumps py_str : value obj → res string.
Variable dicom_tag_to_dict : string → res (dict (value obj)).

Local Abbreviation pfolder := (process_folder obj json_dumps py_str dicom_tag_to_dict).
Local Abbreviation worker :=
  (process_folder_and_save_results obj json_dumps py_str dicom_tag_to_dict).

Lemma quiet_process_folder folder order : quiet (pfolder folder order).
Proof. unfold process_folder. simpl. repeat split; done. Qed.

Lemma quiet_save_partial_results rs index unique_id :
  quiet (save_partial_results rs index unique_id).
Proof. unfold save_partial_results. simpl. repeat split; done. Qed.

Lemma wp_worker folder processed_folders order unique_id w :
  wp (worker folder processed_folders order unique_id) (λ _ _, True) (λ _ _, True) w.
Proof.
  unfold process_folder_and_save_results. case_bool_decide; [|done].
  apply wp_bind, wp_quiet; [apply quiet_process_folder| |done]. intros rs w1 _.
  apply wp_bind, wp_act_any; [done| |done]. intros names w2 _.
  apply wp_bind, wp_quiet; [apply quiet_save_partial_results| |done]. intros _ w3 _.
  apply wp_bind, wp_act. intros w4 _ _. split; [done|].
  intros r w5 Hp _. simpl in Hp. simplify_eq.
  apply wp_mark_folder_as_processed. unfold saved. simpl. set_solver.
Qed.

(** In every state the pool can reach, a folder named in the checkpoint
    file has been saved, and a step that leaves a folder in the checkpoint
    file starts from a state in which the folder was saved already. *)
Lemma pool_checkpoint_order
    (folders : list string) (processed_folders : pyset)
    (completion : string → list nat) (uuid4 : string → string)
    (sched : list nat) (w0 : world) :
  checkpoint_safe w0 →
  let futures :=
    map (λ folder, worker folder processed_folders (completion folder) (uuid4 folder))
        folders in
  let state := run_pool sched futures w0 in
  (∀ folder, HStr folder ∈ checkpoint_set state.2 → saved state.2 folder) ∧
  (∀ i futures' w' folder,
     pool_step i state.1 state.2 = Some (futures', w') →
     HStr folder ∈ checkpoint_set w' → saved state.2 folder) ∧
  (∀ folder order unique_id,
     HStr folder ∉ processed_folders →
     ∃ k h, worker folder processed_folders order unique_id
            = Act (OsListdir folder) k h).
Proof.
  intros Hsafe0 futures state.
  assert (Hredo : ∀ folder order unique_id,
            HStr folder ∉ processed_folders →
            ∃ k h, worker folder processed_folders order unique_id
                   = Act (OsListdir folder) k h).
  { intros folder order unique_id Hnot. unfold process_folder_and_save_results.
    rewrite bool_decide_eq_true_2 by done. unfold process_folder. simpl. eauto. }
  assert (Hinit : pool_safe futures w0).
  { split; [done|]. apply Forall_forall. intros p Hp.
    apply list_elem_of_fmap in Hp as (folder & -> & _). apply wp_worker. }
  pose proof (run_pool_safe sched _ _ Hinit) as [Hsafe Hall]. fold state in Hsafe, Hall.
  split; [exact Hsafe|]. split; [|exact Hredo].
  intros i futures' w' folder Hstep. unfold pool_step in Hstep.
  destruct (state.1 !! i) as [p|] eqn:Hi; [|done].
  destruct p as [a|e|c|B a k h]; try done.
  destruct (perform a state.2) as [[r w2]|] eqn:Hp; [|done].
  pose proof (Forall_lookup_1 _ _ _ _ Hall Hi) as Hwp. simpl in Hwp.
  destruct (Hwp _ (extends_refl _) Hsafe) as [Hd _].
  assert (w2 = w') as -> by (destruct r; by simplify_eq).
  by eapply perform_checkpoint_before.
Qed.

End ResultBeforeCheckpoint.

(** ** The lock window of [mark_folder_as_processed] *)

(** C8, at two workers that finish their folders at about the same time:
    the exclusive lock covers only the dump, not the load before it nor
    the truncating open.  In the first run both workers load the (absent)
    checkpoint before either writes; both calls return, both folders are
    saved, and the checkpoint names only the second.  In the second run a
    worker loads the file while the other has it open for writing: it
    reads an empty file, takes it for an empty set, and its dump then
    drops both the earlier folder and the first worker's. *)
Theorem narrow_lock_window_loses_update :
  (run_pool race_schedule (race_futures ∅) race_world).1 = [Ret (); Ret ()] ∧
  checkpoint (run_pool race_schedule (race_futures ∅) race_world).2
    = Some (Document (JArr [JStr "/data/b"])) ∧
  journal (run_pool race_schedule (race_futures ∅) race_world).2
    = [EvDecode "/data/a/x.dcm"; EvSaved "/data/a";
       EvDecode "/data/b/y.dcm"; EvSaved "/data/b"] ∧
  (run_pool torn_schedule (race_futures {[HStr "/data/old"]}) resumed_world).1
    = [Ret (); Ret ()] ∧
  checkpoint (run_pool (replicate 12 0) (race_futures {[HStr "/data/old"]}) resumed_world).2
    = Some Undecodable ∧
  checkpoint (run_pool torn_schedule (race_futures {[HStr "/data/old"]}) resumed_world).2
    = Some (Document (JArr [JStr "/data/b"])).
Proof. repeat split; vm_compute; reflexivity. Qed.

(** ** The model at work *)

Example bytes_hex_example : bytes_hex [Byte.x00; Byte.xff; Byte.x1a] = "00ff1a".
Proof. reflexivity. Qed.

Example os_path_join_example :
  Str.os_path_join "/data/s1" "a.dcm" = "/data/s1/a.dcm" ∧
  Str.os_path_join "/data/s1/" "a.dcm" = "/data/s1/a.dcm" ∧
  Str.os_path_join "" "a.dcm" = "a.dcm".
Proof. done. Qed.

Example chunks_example :
  completed_chunks ["1"; "2"; "3"; "4"; "5"; "6"; "7"; "8"] [1]
  = [["7"; "8"]; ["1"; "2"; "3"; "4"; "5"; "6"]].
Proof. reflexivity. Qed.

Example stringify_set_example :
  stringify_value unit demo_dumps demo_str (VSet [VNone])
  = Returns "Error: Object of type set is not JSON serializable".
Proof. reflexivity. Qed.

Example final_table_example :
  final_table [[("a", "1"); ("b", "N/A")]; [("b", ""); ("c", "None"); ("a", "NONE")]]
  = [Series "a" [Some "1"; None]].
Proof. reflexivity. Qed.

Example find_dcm_folders_example :
  run (find_dcm_folders "/data") race_world = Ok ["/data/a"; "/data/b"] race_world.
Proof. vm_compute. reflexivity. Qed.

(** A complete run over [demo_world]: one folder, one worker. *)
Example main_example :
  let o := Oracle (replicate 12 0) (λ _, []) (λ _, "0b5e") in
  match main unit demo_dumps demo_str demo_decoder "/data" o demo_world with
  | Ok _ w =>
      output w = Some [Series "SOP Class UID (0008, 0016)" [Some "1.2.840"; None];
                       Series "DicomPath" [Some "/data/s1/a.dcm"; Some "/data/s1/b.dcm"]] ∧
      temp_dir w = None ∧ checkpoint w = None
  | _ => False
  end.
Proof. vm_compute. done. Qed.

(** * Part III: further properties of the code *)

(** ** The element walk *)

Section DecoderFacts.

Context {obj : Type}.

Local Abbreviation element := (Decoder.element obj).

Lemma overlay_group_spec (g : N) :
  Decoder.overlay_group g = true ↔ (0x6000 ≤ g ≤ 0x60FF)%N ∧ (g mod 2 = 0)%N.
Proof.
  unfold Decoder.overlay_group.
  rewrite andb_true_iff, !N.eqb_eq, N.shiftr_div_pow2.
  change 0xFF%N with (N.ones 8). rewrite N.land_ones.
  change (2 ^ 8)%N with 256%N.
  pose proof (N.div_mod g 256 ltac:(done)) as Hg.
  pose proof (N.mod_upper_bound g 256 ltac:(done)) as Hr.
  pose proof (N.div_mod (g mod 256) 2 ltac:(done)) as Hr2.
  pose proof (N.mod_upper_bound (g mod 256) 2 ltac:(done)) as Hb.
  assert (Hmod : (g mod 2 = (g mod 256) mod 2)%N).
  { symmetry. apply (N.mod_unique g 2 (128 * (g / 256) + (g mod 256) / 2)); lia. }
  rewrite Hmod. clear Hmod.
  generalize dependent ((g mod 256) mod 2)%N. intros b.
  generalize dependent ((g mod 256) / 2)%N. intros a.
  generalize dependent (g mod 256)%N. intros r.
  generalize dependent (g / 256)%N. intros q. lia.
Qed.

(** X1: an element's value is left out of the tag dictionary exactly when
    its group is an even group of the overlay range 0x6000-0x60FF, or one of
    0x7FE0, 0xFFFA, 0xFFFC and 0xFFFE. *)
Theorem kept_group_spec (g : N) :
  Decoder.kept_group g = false ↔
  ((0x6000 ≤ g ≤ 0x60FF)%N ∧ (g mod 2 = 0)%N) ∨
  g ∈ [0x7FE0; 0xFFFA; 0xFFFC; 0xFFFE]%N.
Proof.
  unfold Decoder.kept_group. rewrite andb_false_iff, !negb_false_iff.
  rewrite overlay_group_spec. unfold Decoder.payload_group.
  by rewrite bool_decide_eq_true.
Qed.

Lemma dict_get_set_ne {V} k k' (v : V) d :
  k ≠ k' → dict_get k' (dict_set k v d) = dict_get k' d.
Proof.
  intros Hne. induction d as [|[k0 v0] d IH]; simpl.
  - by destruct (String.eqb_spec k k').
  - destruct (String.eqb_spec k0 k) as [->|]; simpl.
    + by destruct (String.eqb_spec k k').
    + by rewrite IH.
Qed.

Lemma dict_keys_set {V} k k' (v : V) d :
  k' ∈ dict_keys (dict_set k v d) ↔ k' = k ∨ k' ∈ dict_keys d.
Proof.
  rewrite <- !dict_get_keys. destruct (decide (k = k')) as [->|Hne].
  - rewrite dict_get_set_eq. naive_solver.
  - rewrite dict_get_set_ne by done. naive_solver.
Qed.

Lemma dict_set_NoDup {V} k (v : V) d :
  NoDup (dict_keys d) → NoDup (dict_keys (dict_set k v d)).
Proof.
  induction d as [|[k0 v0] d IH]; simpl; intros Hnd.
  - apply NoDup_singleton.
  - apply NoDup_cons in Hnd as [Hnotin Hnd].
    destruct (String.eqb_spec k0 k) as [->|Hne]; simpl.
    + by apply NoDup_cons.
    + apply NoDup_cons. split; [|by apply IH].
      fold (dict_keys (dict_set k v d)). rewrite dict_keys_set. naive_solver.
Qed.

Local Abbreviation file_leaf :=
  (λ (r : dict (value obj)) (l : string * N * value obj),
     if Decoder.kept_group l.1.2 then dict_set l.1.1 l.2 r else r).

(** The recursive walk files the leaves one after another. *)
Lemma process_element_leaves (e : element) prefix results :
  Decoder.process_element obj e prefix results =
  fold_left file_leaf (Decoder.leaves obj e prefix) results.
Proof.
  revert e prefix results. fix IH 1.
  intros [name tag g v|name tag g items|elements] prefix results; simpl.
  - done.
  - revert results. induction items as [|sub items IHitems]; intros results; simpl; [done|].
    by rewrite fold_left_app, <- IH, IHitems.
  - revert results. induction elements as [|sub elements IHel]; intros results; simpl; [done|].
    by rewrite fold_left_app, <- IH, IHel.
Qed.

Lemma fold_file_leaf_get k (ls : list (string * N * value obj)) results :
  dict_get k (fold_left file_leaf ls results) =
  match Decoder.last_kept obj k ls with
  | Some v => Some v
  | None => dict_get k results
  end.
Proof.
  unfold Decoder.last_kept.
  induction ls as [|[[key g] v] ls IH] using rev_ind; [done|].
  rewrite !fold_left_app. simpl.
  destruct (Decoder.kept_group g); simpl.
  - destruct (String.eqb_spec key k) as [->|Hne]; simpl.
    + apply dict_get_set_eq.
    + by rewrite dict_get_set_ne.
  - by rewrite andb_false_r.
Qed.

Lemma fold_file_leaf_NoDup (ls : list (string * N * value obj)) results :
  NoDup (dict_keys results) → NoDup (dict_keys (fold_left file_leaf ls results)).
Proof.
  revert results. induction ls as [|l ls IH]; intros results Hnd; simpl; [done|].
  apply IH. destruct (Decoder.kept_group l.1.2); [by apply dict_set_NoDup|done].
Qed.

Lemma leaves_prefix (e : element) prefix l :
  l ∈ Decoder.leaves obj e prefix → Str.startswith l.1.1 prefix = true.
Proof.
  assert (Happ : ∀ a b, Str.startswith (a +:+ b) a = true).
  { intros a b. induction a as [|c a IHa]; [done|].
    change (String c a +:+ b) with (String c (a +:+ b)). simpl.
    by rewrite Ascii.eqb_refl, IHa. }
  assert (Htrans : ∀ a b c, Str.startswith a (b +:+ c) = true → Str.startswith a b = true).
  { intros a b c. revert a. induction b as [|x b IHb]; intros a; [done|].
    change (String x b +:+ c) with (String x (b +:+ c)). simpl.
    destruct a as [|y a]; [done|]. intros [-> H]%andb_true_iff. by rewrite (IHb a H). }
  revert e prefix l. fix IH 1.
  intros [name tag g v|name tag g items|elements] prefix l; simpl.
  - intros ->%list_elem_of_singleton. apply Happ.
  - induction items as [|sub items IHitems]; simpl; [by intros ?%elem_of_nil|].
    intros [Hl|Hl]%elem_of_app; [|by apply IHitems].
    apply IH in Hl. by eapply Htrans.
  - induction elements as [|sub elements IHel]; simpl; [by intros ?%elem_of_nil|].
    intros [Hl|Hl]%elem_of_app; [|by apply IHel]. by apply IH in Hl.
Qed.

(** X2: the tag dictionary that the element walk leaves behind maps a key
    to the value of the last element, in document order, that is filed
    under this key and whose group is kept; a key no kept element is filed
    under keeps its earlier entry.  So elements of the left-out groups never
    show, and of several sequence items with the same tags only the last
    one's values remain.  Keys stay distinct, and a key filed under a
    sequence starts with the prefix of that sequence. *)
Theorem process_element_result (e : element) (prefix : string)
    (results : dict (value obj)) (k : string) :
  dict_get k (Decoder.process_element obj e prefix results) =
    match Decoder.last_kept obj k (Decoder.leaves obj e prefix) with
    | Some v => Some v
    | None => dict_get k results
    end ∧
  (NoDup (dict_keys results) →
   NoDup (dict_keys (Decoder.process_element obj e prefix results))) ∧
  (∀ v, Decoder.last_kept obj k (Decoder.leaves obj e prefix) = Some v →
        Str.startswith k prefix = true ∧
        ∃ g, (k, g, v) ∈ Decoder.leaves obj e prefix ∧ Decoder.kept_group g = true).
Proof.
  rewrite process_element_leaves. split; [apply fold_file_leaf_get|].
  split; [apply fold_file_leaf_NoDup|].
  intros v Hlast.
  assert (Hin : ∃ g, (k, g, v) ∈ Decoder.leaves obj e prefix ∧ Decoder.kept_group g = true).
  { revert Hlast. unfold Decoder.last_kept.
    induction (Decoder.leaves obj e prefix) as [|[[key g] v'] ls IHls] using rev_ind; [done|].
    rewrite fold_left_app. simpl.
    destruct (String.eqb_spec key k) as [->|Hne]; simpl.
    - destruct (Decoder.kept_group g) eqn:Hg.
      + intros [= ->]. exists g. split; [|done]. apply elem_of_app. right. left.
      + intros (g' & Hin & Hg')%IHls. exists g'. split; [|done]. apply elem_of_app. by left.
    - intros (g' & Hin & Hg')%IHls. exists g'. split; [|done]. apply elem_of_app. by left. }
  split; [|done]. destruct Hin as (g & Hin & _).
  by apply (leaves_prefix e prefix (k, g, v)).
Qed.

End DecoderFacts.

(** ** The folder processor, file by file *)

(** X3: the chunks of [process_folder] cut the list of paths into
    consecutive pieces: put end to end they give the list back, none is
    empty, none is longer than [chunk_size], and there are
    ceil(n / chunk_size) of them. *)
Theorem chunks_partition (filepaths : list string) :
  let chunks :=
    map (λ i, slice filepaths i (i + chunk_size))
        (range_step (length filepaths) chunk_size) in
  concat chunks = filepaths ∧
  Forall (λ chunk, (1 ≤ length chunk ≤ chunk_size)%nat) chunks ∧
  length chunks = (length filepaths + 5) / 6.
Proof.
  intros chunks. split; [|split].
  - apply concat_chunks. unfold chunk_size. lia.
  - unfold chunks, range_step, chunk_size. rewrite Forall_forall.
    intros chunk Hin. rewrite map_map in Hin.
    change (map ?f ?l) with (f <$> l) in Hin.
    apply list_elem_of_fmap in Hin as (k & -> & Hk).
    apply list_elem_of_In, in_seq in Hk. unfold slice.
    rewrite length_take, length_drop.
    pose proof (Nat.div_mod_eq (length filepaths + 6 - 1) 6).
    pose proof (Nat.mod_upper_bound (length filepaths + 6 - 1) 6). lia.
  - unfold chunks, range_step, chunk_size. rewrite !length_map, length_seq.
    f_equal. lia.
Qed.

Section FolderFacts.

Context {obj : Type}.
Variables json_dumps py_str : value obj → res string.
Variable dicom_tag_to_dict : string → res (dict (value obj)).

Local Abbreviation stringify := (stringify_value obj json_dumps py_str).
Local Abbreviation pfile := (process_file obj json_dumps py_str dicom_tag_to_dict).
Local Abbreviation pfolder := (process_folder obj json_dumps py_str dicom_tag_to_dict).

Lemma stringify_items_get d r k :
  stringify_items obj json_dumps py_str d = Returns r →
  match dict_get k d with
  | Some v => ∃ s, stringify v = Returns s ∧ dict_get k r = Some s
  | None => dict_get k r = None
  end.
Proof.
  revert r. induction d as [|[key v] d IH]; intros r; simpl.
  - by intros [= <-].
  - destruct (stringify v) as [s|e] eqn:Hs; [|done].
    destruct (stringify_items obj json_dumps py_str d) as [r'|e]; [|done].
    intros [= <-]. simpl. destruct (String.eqb key k); [eauto|]. by apply IH.
Qed.

Lemma stringify_items_keys d r :
  stringify_items obj json_dumps py_str d = Returns r → dict_keys r = dict_keys d.
Proof.
  revert r. induction d as [|[key v] d IH]; intros r; simpl.
  - by intros [= <-].
  - destruct (stringify v) as [s|e]; [|done].
    destruct (stringify_items obj json_dumps py_str d) as [r'|e]; [|done].
    intros [= <-]. simpl. f_equal. by apply IH.
Qed.

(** X4: when the decoder returns a tag dictionary, [process_file] prints
    nothing and returns a record with the same fields: each tag holds the
    text [stringify_value] gives for its value, "DicomPath" holds the path
    (also when the decoder had a tag of that name), and there is no other
    field. *)
Theorem process_file_record (filepath : string) (dicom_data : dict (value obj)) :
  dicom_tag_to_dict filepath = Returns dicom_data →
  snd (pfile filepath) = [] ∧
  dict_get "DicomPath" (fst (pfile filepath)) = Some filepath ∧
  (∀ k, k ≠ "DicomPath" →
     match dict_get k dicom_data with
     | Some v => ∃ s, stringify v = Returns s ∧ dict_get k (fst (pfile filepath)) = Some s
     | None => dict_get k (fst (pfile filepath)) = None
     end) ∧
  (∀ k, k ∈ dict_keys (fst (pfile filepath)) ↔ k = "DicomPath" ∨ k ∈ dict_keys dicom_data).
Proof.
  intros Hdec. unfold process_file. rewrite Hdec.
  destruct (stringify_items obj json_dumps py_str dicom_data) as [r|e] eqn:Hr.
  2:{ destruct (stringify_items_returns json_dumps py_str dicom_data) as [r' Hr'].
      by rewrite Hr in Hr'. }
  simpl. split; [done|]. split; [apply dict_get_set_eq|]. split.
  - intros k Hk. rewrite dict_get_set_ne by done. by apply stringify_items_get.
  - intros k. rewrite dict_keys_set. by rewrite (stringify_items_keys _ _ Hr).
Qed.

(** X5: [process_folder] on a folder that cannot be listed raises
    [FileNotFoundError] and decodes nothing.  Otherwise it returns, and
    apart from what it prints it only reads: the files it hands to the
    decoder are exactly the entries that end in ".dcm", each once, and no
    other entry; when the chunks complete in the order they were submitted
    the records come in the order of the listing. *)
Theorem process_folder_decodes_dcm_entries (folder : string) (order : list nat) (w : world) :
  match lookup_dir w folder with
  | None => run (pfolder folder order) w = Raise no_such_file w
  | Some e =>
      let filepaths := dcm_filepaths folder (dirnames e ++ filenames e) in
      (∃ rs decoded lines,
         run (pfolder folder order) w
           = Ok rs (add_stdout lines (add_journal (map EvDecode decoded) w)) ∧
         decoded ≡ₚ filepaths ∧
         ∀ p, p ∈ decoded ↔
              ∃ name, name ∈ dirnames e ++ filenames e ∧
                      Str.endswith name ".dcm" = true ∧
                      p = Str.os_path_join folder name) ∧
      run (pfolder folder []) w
        = Ok (map (λ p, fst (pfile p)) filepaths)
             (add_stdout (flat_map (λ p, snd (pfile p)) filepaths)
                (add_journal (map EvDecode filepaths) w))
  end.
Proof.
  rewrite !run_process_folder. destruct (lookup_dir w folder) as [e|]; [|done].
  cbv zeta. split.
  - eexists _, _, _. split; [done|]. split; [apply completed_chunks_Permutation|].
    intros p. rewrite completed_chunks_Permutation. unfold dcm_filepaths.
    change (map ?f ?l) with (f <$> l). rewrite list_elem_of_fmap.
    setoid_rewrite list_elem_of_filter. naive_solver.
  - assert (Hid : completed_chunks (dcm_filepaths folder (dirnames e ++ filenames e)) []
                  = map (λ i, slice (dcm_filepaths folder (dirnames e ++ filenames e)) i
                                    (i + chunk_size))
                        (range_step (length (dcm_filepaths folder (dirnames e ++ filenames e)))
                                    chunk_size)).
    { unfold completed_chunks. generalize (map (λ i, slice (dcm_filepaths folder
        (dirnames e ++ filenames e)) i (i + chunk_size)) (range_step (length (dcm_filepaths
        folder (dirnames e ++ filenames e))) chunk_size)).
      intros l. induction l as [|x l IH]; simpl; [done|]. by rewrite IH. }
    rewrite Hid, concat_chunks by (unfold chunk_size; lia).
    assert (Hflat : ∀ chunks : list (list string),
              flat_map (map pfile) chunks = map pfile (concat chunks)).
    { intros chunks. induction chunks as [|c chunks IH]; simpl; [done|].
      by rewrite map_app, IH. }
    rewrite Hflat, concat_chunks by (unfold chunk_size; lia).
    assert (Hsnd : ∀ l : list string,
              flat_map snd (map pfile l) = flat_map (λ p, snd (pfile p)) l).
    { intros l. induction l as [|p l IH]; simpl; [done|]. by rewrite IH. }
    by rewrite map_map, Hsnd.
Qed.

End FolderFacts.

Lemma process_file_record_witness :
  let pfile := process_file unit demo_dumps demo_str demo_decoder in
  let dicom_data := [("SOP Class UID (0008, 0016)", VObj ()); ("Patient ID (0010, 0020)", VNone)] in
  snd (pfile "/data/s1/a.dcm") = [] ∧
  dict_get "DicomPath" (fst (pfile "/data/s1/a.dcm")) = Some "/data/s1/a.dcm" ∧
  (∀ k, k ≠ "DicomPath" →
     match dict_get k dicom_data with
     | Some v => ∃ s, stringify_value unit demo_dumps demo_str v = Returns s ∧
                      dict_get k (fst (pfile "/data/s1/a.dcm")) = Some s
     | None => dict_get k (fst (pfile "/data/s1/a.dcm")) = None
     end) ∧
  (∀ k, k ∈ dict_keys (fst (pfile "/data/s1/a.dcm")) ↔
        k = "DicomPath" ∨ k ∈ dict_keys dicom_data).
Proof.
  apply (process_file_record demo_dumps demo_str demo_decoder "/data/s1/a.dcm"). reflexivity.
Defined.


(** ** The merge stage *)

(** X6: [merge_partial_results_and_cleanup] raises [FileNotFoundError] when
    the temp directory is missing.  Otherwise it returns and the temp
    directory is gone.  With no file ending in ".json" it writes no output.
    With such files it writes the table of the records of all of them that
    hold a complete batch, taken in the order of the listing; a file that
    cannot be loaded costs a printed line and is left out, and files with
    another suffix are not read.  The checkpoint file is not touched. *)
Theorem merge_outcome (w : world) :
  match temp_dir w with
  | None =>
      run merge_partial_results_and_cleanup w =
      Raise no_such_file
        (add_stdout ["Mergging all partial results and cleaning up temporary files..."] w)
  | Some files =>
      ∃ w', run merge_partial_results_and_cleanup w = Ok () w' ∧
            temp_dir w' = None ∧
            checkpoint w' = checkpoint w ∧
            journal w' = journal w ∧
            output w' =
              match json_names files with
              | [] => output w
              | _ => Some (final_table (flat_map (batch_records files) (json_names files)))
              end ∧
            stdout w' =
              stdout w ++
              "Mergging all partial results and cleaning up temporary files..." ::
              match json_names files with
              | [] => ["No DICOM files were processed. No CSV file will be generated."]
              | _ => flat_map (load_complaint files) (json_names files)
              end
  end.
Proof.
  unfold merge_partial_results_and_cleanup.
  destruct (temp_dir w) as [files|] eqn:Htmp.
  - rewrite run_bind. cbn [run act perform obind]. rewrite run_bind.
    cbn [run act perform obind]. replace (temp_dir (add_stdout _ w)) with (Some files) by done.
    cbn [obind]. fold (json_names files).
    destruct (json_names files) as [|name names] eqn:Hnames.
    + rewrite run_bind. cbn [run act perform obind].
      replace (temp_dir (add_stdout _ (add_stdout _ w))) with (Some files) by done.
      eexists. split; [reflexivity|]. simpl.
      repeat split; try done. by rewrite <- app_assoc.
    + rewrite run_bind, (run_load_partial_files _ _ _ files) by done.
      cbn [obind app]. rewrite run_bind. cbn [run act perform obind].
      replace (temp_dir (set_output _ (add_stdout _ (add_stdout _ w)))) with (Some files) by done.
      eexists. split; [reflexivity|]. cbn [set_temp_dir set_output add_stdout temp_dir checkpoint journal output stdout].
      repeat split; try done. by rewrite <- app_assoc.
  - simpl. by rewrite Htmp.
Qed.

Lemma json_names_elem files name :
  name ∈ json_names files ↔ Str.endswith name ".json" = true ∧ is_Some (files !! name).
Proof.
  unfold json_names. rewrite list_elem_of_filter.
  change (map fst (map_to_list files)) with (fst <$> map_to_list files).
  rewrite list_elem_of_fmap. split.
  - intros [Hsuf ([n f] & -> & Hin%elem_of_map_to_list)]. eauto.
  - intros [Hsuf [f Hf]]. split; [done|]. exists (name, f).
    split; [done|]. by apply elem_of_map_to_list.
Qed.

Lemma merged_rows_elem files r :
  r ∈ merged_rows files ↔
  ∃ name records,
    Str.endswith name ".json" = true ∧ files !! name = Some (Batch records) ∧ r ∈ records.
Proof.
  unfold merged_rows. rewrite list_elem_of_In, in_flat_map. split.
  - intros (name & Hname%list_elem_of_In & Hr%list_elem_of_In).
    apply json_names_elem in Hname as [Hsuf _]. unfold batch_records in Hr.
    destruct (files !! name) as [[|records]|] eqn:E; try by apply elem_of_nil in Hr.
    eauto.
  - intros (name & records & Hsuf & Hf & Hr). exists name. split.
    + apply list_elem_of_In, json_names_elem. eauto.
    + apply list_elem_of_In. unfold batch_records. by rewrite Hf.
Qed.

Lemma part_name_json index unique_id : Str.endswith (part_name index unique_id) ".json" = true.
Proof. unfold part_name. repeat apply endswith_app. done. Qed.

Lemma run_save_partial_results rs index unique_id w files :
  temp_dir w = Some files →
  run (save_partial_results rs index unique_id) w =
  Ok () (set_temp_dir (Some (<[part_name index unique_id := Batch rs]> files)) w).
Proof.
  intros Htmp. unfold save_partial_results. fold (part_name index unique_id).
  rewrite run_bind. cbn [run act perform obind]. rewrite Htmp.
  cbn [run act perform obind temp_dir set_temp_dir]. destruct w. simpl.
  by rewrite insert_insert_eq.
Qed.

(** X7: what [save_partial_results] writes, the merge stage reads.  With
    the temp directory in place the call returns; when the merge stage runs
    next it writes a table, and the rows of that table are the records just
    saved together with the records of the other complete ".json" files of
    the directory.  A file that had the same name is replaced. *)
Theorem saved_batch_is_merged
    (rs : list Record) (index : nat) (unique_id : string)
    (w : world) (files : gmap string partial_file) :
  temp_dir w = Some files →
  ∃ w1 w2 rows,
    run (save_partial_results rs index unique_id) w = Ok () w1 ∧
    run merge_partial_results_and_cleanup w1 = Ok () w2 ∧
    output w2 = Some (final_table rows) ∧
    ∀ r, r ∈ rows ↔
         r ∈ rs ∨
         ∃ name records,
           name ≠ part_name index unique_id ∧ Str.endswith name ".json" = true ∧
           files !! name = Some (Batch records) ∧ r ∈ records.
Proof.
  intros Htmp.
  set (files' := <[part_name index unique_id := Batch rs]> files).
  exists (set_temp_dir (Some files') w). eexists. exists (merged_rows files').
  split; [by apply run_save_partial_results|].
  split; [by apply run_merge_some|]. split.
  - destruct (json_names files') as [|n ns] eqn:E; [|done].
    assert (Hin : part_name index unique_id ∈ json_names files').
    { apply json_names_elem. split; [apply part_name_json|].
      unfold files'. rewrite lookup_insert_eq. eauto. }
    rewrite E in Hin. by apply elem_of_nil in Hin.
  - intros r. rewrite merged_rows_elem. unfold files'. split.
    + intros (name & records & Hsuf & Hf & Hr).
      destruct (decide (name = part_name index unique_id)) as [->|Hne].
      * rewrite lookup_insert_eq in Hf. left. congruence.
      * rewrite lookup_insert_ne in Hf by done. right. eauto 10.
    + intros [Hr|(name & records & Hne & Hsuf & Hf & Hr)].
      * exists (part_name index unique_id), rs.
        rewrite lookup_insert_eq. split; [apply part_name_json|done].
      * exists name, records. by rewrite lookup_insert_ne.
Qed.

Lemma saved_batch_is_merged_witness :
  ∃ w1 w2 rows,
    run (save_partial_results [[("DicomPath", "/data/a/x.dcm")]] 0 "1f0e") race_world
      = Ok () w1 ∧
    run merge_partial_results_and_cleanup w1 = Ok () w2 ∧
    output w2 = Some (final_table rows) ∧
    ∀ r, r ∈ rows ↔
         r ∈ [[("DicomPath", "/data/a/x.dcm")]] ∨
         ∃ name records,
           name ≠ part_name 0 "1f0e" ∧ Str.endswith name ".json" = true ∧
           (∅ : gmap string partial_file) !! name = Some (Batch records) ∧ r ∈ records.
Proof.
  apply (saved_batch_is_merged [[("DicomPath", "/data/a/x.dcm")]] 0 "1f0e" race_world ∅).
  reflexivity.
Defined.

(** X8: the table the merge stage writes is rectangular and clean.  Its
    column names are distinct and come in the order in which the field
    names first occur in the records; every column has one cell per
    record; no cell holds one of the four sentinel texts; and every column
    has a cell that is not missing. *)
Theorem final_table_well_formed (all_data : list Record) :
  NoDup (column_names (final_table all_data)) ∧
  column_names (final_table all_data) `sublist_of`
    first_seen [] (flat_map dict_keys all_data) ∧
  ∀ s, s ∈ final_table all_data →
       length (s_values s) = length all_data ∧
       (∀ v, Some v ∈ s_values s → v ∉ ["" ; "N/A"; "None"; "NONE"]) ∧
       (∃ v, Some v ∈ s_values s).
Proof.
  split; [apply final_table_NoDup|]. split.
  - unfold final_table, drop_null_columns, column_names, map_elements, from_records.
    set (keys := first_seen [] (flat_map dict_keys all_data)).
    replace keys with
      (map s_name (map (λ s, Series (s_name s) (map replace_with_none (s_values s)))
                       (map (λ k, Series k (map (dict_get k) all_data)) keys))) at 2.
    + change (map s_name ?l) with (s_name <$> l). apply fmap_sublist, sublist_filter.
    + rewrite !map_map. simpl. apply map_id.
  - intros s (_ & Hvals & r & Hr & Hne)%final_table_elem. rewrite Hvals. split; [|split].
    + by rewrite length_map.
    + intros v. change (map ?f all_data) with (f <$> all_data).
      intros (r' & Hv & _)%list_elem_of_fmap Hsent.
      assert (Hs : Some v ∈ sentinels) by (unfold sentinels; set_solver).
      apply replace_with_none_None in Hs.
      assert (Hidem : replace_with_none (replace_with_none (dict_get (s_name s) r')) =
                      replace_with_none (dict_get (s_name s) r')).
      { rewrite (replace_with_none_spec (dict_get (s_name s) r')).
        case_bool_decide as Hc; [done|]. by apply replace_with_none_other. }
      rewrite <- Hv in Hidem. rewrite Hs in Hidem. by rewrite <- Hidem in Hv.
    + destruct (replace_with_none (dict_get (s_name s) r)) as [v|] eqn:E; [|done].
      exists v. change (map ?f all_data) with (f <$> all_data).
      apply list_elem_of_fmap. exists r. by rewrite E.
Qed.

(** ** The checkpoint store, one process at a time *)

Lemma run_mark_readable folder w :
  unlocked w = true →
  readable_checkpoint w = true →
  run (mark_folder_as_processed folder) w =
  Ok () (set_checkpoint
           (Some (Document (json_of_set ({[HStr folder]} ∪ checkpoint_set w)))) w).
Proof.
  unfold unlocked, readable_checkpoint, checkpoint_set, mark_folder_as_processed.
  intros Hlock Hread. rewrite run_bind, run_load_processed_folders.
  destruct w as [inp tmp ck sh ex out so jn]. simpl in *.
  destruct ex; [done|]. destruct sh; [|done].
  destruct ck as [[|doc|f]|]; simpl.
  - done.
  - unfold doc_set. destruct (py_set doc) as [s|e]; [done|done].
  - done.
  - done.
Qed.

Lemma run_mark_unreadable folder w doc e :
  lock_ex w = false →
  checkpoint w = Some (Document doc) →
  py_set doc = Raises e →
  run (mark_folder_as_processed folder) w = Raise e w.
Proof.
  intros Hlock Hck Hdoc. unfold mark_folder_as_processed.
  rewrite run_bind, run_load_processed_folders, Hck, Hlock, Hdoc.
  by rewrite (py_set_TypeError _ _ Hdoc).
Qed.

Lemma marked_world folder w :
  let w' := set_checkpoint
              (Some (Document (json_of_set ({[HStr folder]} ∪ checkpoint_set w)))) w in
  unlocked w' = unlocked w ∧ readable_checkpoint w' = true ∧
  checkpoint_set w' = {[HStr folder]} ∪ checkpoint_set w.
Proof.
  cbv zeta. split; [done|]. split.
  - unfold readable_checkpoint. cbn [checkpoint set_checkpoint].
    by rewrite py_set_json_of_set.
  - unfold checkpoint_set at 1. cbn [checkpoint set_checkpoint]. apply doc_set_json_of_set.
Qed.

(** X9: run by one process with no lock held elsewhere and a checkpoint
    file that is missing, undecodable or a list of hashable values,
    [mark_folder_as_processed] returns, and a [load_processed_folders]
    that follows returns the set that was there before together with the
    folder.  The locks are released again and neither the temp directory
    nor the output is touched. *)
Theorem mark_folder_as_processed_alone (folder : string) (w : world) :
  unlocked w = true →
  readable_checkpoint w = true →
  ∃ w', run (mark_folder_as_processed folder) w = Ok () w' ∧
        run load_processed_folders w' = Ok ({[HStr folder]} ∪ checkpoint_set w) w' ∧
        unlocked w' = true ∧
        temp_dir w' = temp_dir w ∧ output w' = output w ∧
        stdout w' = stdout w ∧ journal w' = journal w.
Proof.
  intros Hlock Hread. eexists. split; [by apply run_mark_readable|].
  split; [|by repeat split].
  rewrite run_load_processed_folders. cbn [checkpoint lock_ex set_checkpoint].
  apply andb_true_iff in Hlock as [Hex _]. apply negb_true_iff in Hex. rewrite Hex.
  by rewrite py_set_json_of_set.
Qed.

Lemma mark_folder_as_processed_alone_witness :
  ∃ w', run (mark_folder_as_processed "/data/a") resumed_world = Ok () w' ∧
        run load_processed_folders w' =
          Ok ({[HStr "/data/a"]} ∪ checkpoint_set resumed_world) w' ∧
        unlocked w' = true ∧
        temp_dir w' = temp_dir resumed_world ∧ output w' = output resumed_world ∧
        stdout w' = stdout resumed_world ∧ journal w' = journal resumed_world.
Proof. apply (mark_folder_as_processed_alone "/data/a" resumed_world); reflexivity. Defined.

(** X10: when the checkpoint file holds valid JSON that [set] rejects,
    [mark_folder_as_processed] raises the [TypeError] of
    [load_processed_folders] before it opens the file for writing: the file
    keeps its content and the folder is not recorded. *)
Theorem mark_folder_as_processed_bad_document
    (folder : string) (w : world) (doc : json) (e : exn) :
  lock_ex w = false →
  checkpoint w = Some (Document doc) →
  py_set doc = Raises e →
  run (mark_folder_as_processed folder) w = Raise e w ∧ exn_cls e = TypeError.
Proof.
  intros Hlock Hck Hdoc. split; [by eapply run_mark_unreadable|].
  by eapply py_set_TypeError.
Qed.

Lemma mark_folder_as_processed_bad_document_witness :
  run (mark_folder_as_processed "/data/a")
      (World [] None (Some (Document (JArr [JArr []]))) 0 false None [] [])
  = Raise (Exn TypeError "unhashable type: 'list'")
      (World [] None (Some (Document (JArr [JArr []]))) 0 false None [] []) ∧
  exn_cls (Exn TypeError "unhashable type: 'list'") = TypeError.
Proof.
  apply (mark_folder_as_processed_bad_document "/data/a"
           (World [] None (Some (Document (JArr [JArr []]))) 0 false None [] [])
           (JArr [JArr []])); reflexivity.
Defined.

(** X11: marks made one after the other lose nothing.  Under the
    conditions of X9, after [mark_folder_as_processed] has been called for
    each folder of a list in turn, the checkpoint file holds the set it
    held before together with all the folders of the list, whatever their
    order and however often one occurs. *)
Theorem marks_in_sequence_accumulate (folders : list string) (w : world) :
  unlocked w = true →
  readable_checkpoint w = true →
  ∃ done w',
    run (for_each mark_folder_as_processed folders) w = Ok done w' ∧
    checkpoint_set w' = list_to_set (map HStr folders) ∪ checkpoint_set w ∧
    unlocked w' = true ∧ readable_checkpoint w' = true.
Proof.
  revert w. induction folders as [|folder folders IH]; intros w Hlock Hread.
  - exists [], w. simpl. split; [done|]. split; [|done]. by rewrite union_empty_l_L.
  - pose proof (marked_world folder w) as (Hl & Hr & Hs). cbv zeta in Hl, Hr, Hs.
    rewrite Hlock in Hl.
    destruct (IH _ Hl Hr) as (ds & w' & Hrun & Hset & Hl' & Hr').
    exists (() :: ds), w'. cbn [for_each].
    rewrite run_bind, run_mark_readable by done. cbn [obind].
    rewrite run_bind, Hrun. cbn [obind run]. split; [done|]. split; [|done].
    rewrite Hset, Hs. cbn [map list_to_set]. set_solver.
Qed.

Lemma marks_in_sequence_accumulate_witness :
  ∃ done w',
    run (for_each mark_folder_as_processed ["/data/b"; "/data/a"; "/data/b"]) resumed_world
      = Ok done w' ∧
    checkpoint_set w' =
      list_to_set (map HStr ["/data/b"; "/data/a"; "/data/b"]) ∪ checkpoint_set resumed_world ∧
    unlocked w' = true ∧ readable_checkpoint w' = true.
Proof.
  apply (marks_in_sequence_accumulate ["/data/b"; "/data/a"; "/data/b"] resumed_world);
    reflexivity.
Defined.

(** ** One worker on its own *)

Section WorkerFacts.

Context {obj : Type}.
Variables json_dumps py_str : value obj → res string.
Variable dicom_tag_to_dict : string → res (dict (value obj)).

Local Abbreviation pfolder := (process_folder obj json_dumps py_str dicom_tag_to_dict).
Local Abbreviation worker :=
  (process_folder_and_save_results obj json_dumps py_str dicom_tag_to_dict).



(** X13: a worker whose folder is not in the set it was given and cannot
    be listed raises [FileNotFoundError] and leaves everything as it was:
    no partial file, no checkpoint entry. *)
Theorem worker_missing_folder
    (folder : string) (processed_folders : pyset) (order : list nat) (unique_id : string)
    (w : world) :
  HStr folder ∉ processed_folders →
  lookup_dir w folder = None →
  run (worker folder processed_folders order unique_id) w = Raise no_such_file w.
Proof.
  intros Hnew Hdir. unfold process_folder_and_save_results.
  rewrite bool_decide_eq_true_2 by done.
  rewrite run_bind, run_process_folder, Hdir. done.
Qed.

End WorkerFacts.


Lemma worker_missing_folder_witness :
  run (process_folder_and_save_results unit demo_dumps demo_str demo_decoder
         "/data/gone" ∅ [] "1f0e") race_world
  = Raise no_such_file race_world.
Proof.
  apply (worker_missing_folder demo_dumps demo_str demo_decoder "/data/gone" ∅ [] "1f0e"
           race_world); [set_solver|reflexivity].
Defined.

(** ** The folder scanner *)

Lemma startswith_refl s : Str.startswith s s = true.
Proof. induction s as [|c s IH]; simpl; [done|]. by rewrite Ascii.eqb_refl. Qed.

Lemma startswith_app p t : Str.startswith (p +:+ t) p = true.
Proof. induction p as [|c p IH]; simpl; [done|]. by rewrite Ascii.eqb_refl. Qed.

Lemma startswith_trans s p q :
  Str.startswith s p = true → Str.startswith p q = true → Str.startswith s q = true.
Proof.
  revert s p. induction q as [|c q IH]; intros s p; [done|].
  destruct p as [|d p]; [done|]. destruct s as [|a s]; [done|]. simpl.
  intros [Hda Hsp]%andb_true_iff [Hcd Hpq]%andb_true_iff.
  apply Ascii.eqb_eq in Hda as ->. apply Ascii.eqb_eq in Hcd as ->.
  rewrite Ascii.eqb_refl. simpl. by eapply IH.
Qed.

Lemma with_sep_prefix a : Str.startswith (with_sep a) a = true.
Proof.
  unfold with_sep. destruct (Str.endswith a "/"); [apply startswith_refl|apply startswith_app].
Qed.

Lemma is_under_refl a : is_under a a = true.
Proof. unfold is_under. by rewrite String.eqb_refl. Qed.

Lemma is_under_prefix a b : is_under a b = true → Str.startswith b a = true.
Proof.
  unfold is_under. intros [->%String.eqb_eq|H]%orb_true_iff; [apply startswith_refl|].
  eapply startswith_trans; [exact H|apply with_sep_prefix].
Qed.

Lemma is_under_trans a b c :
  is_under a b = true → is_under b c = true → is_under a c = true.
Proof.
  intros Hab Hbc. unfold is_under in Hab, Hbc.
  apply orb_true_iff in Hab as [->%String.eqb_eq|Hab]; [done|].
  apply orb_true_iff in Hbc as [->%String.eqb_eq|Hbc].
  - unfold is_under. rewrite Hab. apply orb_true_r.
  - unfold is_under. apply orb_true_iff. right.
    eapply startswith_trans; [|exact Hab].
    eapply startswith_trans; [exact Hbc|apply with_sep_prefix].
Qed.

Lemma run_find_dcm_folders root_dir w :
  run (find_dcm_folders root_dir) w =
  Ok (merge_sort String.le
        (remove_dups
           (omap truthy
              (map (λ e, dirpath <$>
                           find has_dcm (os_walk w (Str.os_path_join root_dir (dirpath e))))
                   (os_walk w root_dir))))) w.
Proof.
  unfold find_dcm_folders. rewrite run_bind. cbn [run act perform obind].
  rewrite run_bind.
  by rewrite (run_for_each_pure _
       (λ e, dirpath <$> find has_dcm (os_walk w (Str.os_path_join root_dir (dirpath e))))).
Qed.

Lemma found_folder_elem root_dir w f :
  f ∈ merge_sort String.le
        (remove_dups
           (omap truthy
              (map (λ e, dirpath <$>
                           find has_dcm (os_walk w (Str.os_path_join root_dir (dirpath e))))
                   (os_walk w root_dir)))) ↔
  f ≠ "" ∧
  ∃ e0 e, e0 ∈ input w ∧ is_under root_dir (dirpath e0) = true ∧
          find has_dcm (os_walk w (Str.os_path_join root_dir (dirpath e0))) = Some e ∧
          dirpath e = f.
Proof.
  rewrite merge_sort_Permutation, elem_of_remove_dups, list_elem_of_omap.
  change (map ?g ?l) with (g <$> l). setoid_rewrite list_elem_of_fmap.
  unfold os_walk at 2. setoid_rewrite list_elem_of_filter. split.
  - intros (r & (e0 & -> & Hunder & He0) & Hr).
    destruct (find has_dcm _) as [e|] eqn:E; [|done]. simpl in Hr.
    assert (dirpath e = f ∧ f ≠ "") as [Hf Hne].
    { destruct (dirpath e) as [|c s]; [done|]. simpl in Hr. by simplify_eq. }
    split; [done|]. eauto 10.
  - intros (Hne & e0 & e & He0 & Hunder & Hfind & Hf).
    exists (Some f). split.
    + exists e0. rewrite Hfind. simpl. by rewrite Hf.
    + by destruct f.
Qed.

Lemma absolute_under root_dir path :
  Str.startswith root_dir "/" = true →
  is_under root_dir path = true →
  Str.startswith path "/" = true.
Proof. intros Habs Hunder%is_under_prefix. by eapply startswith_trans. Qed.

(** X14: for an absolute root, [find_dcm_folders] returns and changes
    nothing.  Its result is in ascending order without repetition, and
    each folder in it is the path of a listed directory at or below the
    root that holds a file ending in ".dcm". *)
Theorem find_dcm_folders_sound (root_dir : string) (w : world) :
  Str.startswith root_dir "/" = true →
  ∃ dcm_folders,
    run (find_dcm_folders root_dir) w = Ok dcm_folders w ∧
    StronglySorted String.le dcm_folders ∧
    NoDup dcm_folders ∧
    ∀ f, f ∈ dcm_folders →
         is_under root_dir f = true ∧
         ∃ e, e ∈ input w ∧ dirpath e = f ∧ has_dcm e = true.
Proof.
  intros Habs. eexists. split; [apply run_find_dcm_folders|]. split; [|split].
  - apply (StronglySorted_merge_sort _); apply _.
  - rewrite merge_sort_Permutation. apply NoDup_remove_dups.
  - intros f (Hne & e0 & e & _ & Hunder & Hfind & Hf)%found_folder_elem.
    pose proof (absolute_under _ _ Habs Hunder) as Habs0.
    unfold Str.os_path_join in Hfind. rewrite Habs0 in Hfind.
    apply find_some in Hfind as [Hin%list_elem_of_In Hdcm].
    unfold os_walk in Hin. apply list_elem_of_filter in Hin as [Hunder' Hin].
    split; [|by eauto]. rewrite <- Hf. by eapply is_under_trans.
Qed.

Lemma find_first_under (entries : list walk_entry) (e : walk_entry) :
  top_down entries = true →
  e ∈ entries →
  has_dcm e = true →
  ∃ e', find has_dcm (filter (λ x, is_under (dirpath e) (dirpath x) = true) entries) = Some e' ∧
        dirpath e' = dirpath e.
Proof.
  induction entries as [|x rest IH]; intros Htop Hin Hdcm; [by apply elem_of_nil in Hin|].
  cbn [top_down] in Htop. apply andb_true_iff in Htop as [Hhead Htop].
  rewrite filter_cons.
  destruct (decide (is_under (dirpath e) (dirpath x) = true)) as [Hunder|Hunder].
  - cbn [find]. destruct (has_dcm x) eqn:Hx.
    + exists x. split; [done|].
      apply elem_of_cons in Hin as [->|Hin]; [done|].
      rewrite forallb_forall in Hhead. apply list_elem_of_In in Hin.
      specialize (Hhead e Hin). rewrite Hunder in Hhead. simpl in Hhead.
      by apply String.eqb_eq in Hhead.
    + apply elem_of_cons in Hin as [->|Hin]; [congruence|]. by apply IH.
  - apply elem_of_cons in Hin as [->|Hin]; [by rewrite is_under_refl in Hunder|].
    by apply IH.
Qed.

(** X15: for an absolute root and a listing in top-down order,
    [find_dcm_folders] finds exactly the directories at or below the root
    that hold a file ending in ".dcm" themselves. *)
Theorem find_dcm_folders_absolute (root_dir : string) (w : world) :
  Str.startswith root_dir "/" = true →
  top_down (input w) = true →
  ∃ dcm_folders,
    run (find_dcm_folders root_dir) w = Ok dcm_folders w ∧
    ∀ f, f ∈ dcm_folders ↔
         ∃ e, e ∈ input w ∧ dirpath e = f ∧ is_under root_dir f = true ∧ has_dcm e = true.
Proof.
  intros Habs Htop. eexists. split; [apply run_find_dcm_folders|].
  intros f. rewrite found_folder_elem. split.
  - intros (Hne & e0 & e & He0 & Hunder & Hfind & Hf).
    pose proof (absolute_under _ _ Habs Hunder) as Habs0.
    unfold Str.os_path_join in Hfind. rewrite Habs0 in Hfind.
    apply find_some in Hfind as [Hin%list_elem_of_In Hdcm].
    unfold os_walk in Hin. apply list_elem_of_filter in Hin as [Hunder' Hin].
    exists e. rewrite <- Hf. repeat split; try done. by eapply is_under_trans.
  - intros (e & Hin & <- & Hunder & Hdcm).
    pose proof (absolute_under _ _ Habs Hunder) as Habs0. split.
    + intros Hempty. by rewrite Hempty in Habs0.
    + destruct (find_first_under _ e Htop Hin Hdcm) as (e' & Hfind & He').
      exists e, e'. unfold Str.os_path_join. rewrite Habs0. done.
Qed.

Lemma find_dcm_folders_sound_witness :
  ∃ dcm_folders,
    run (find_dcm_folders "/data") race_world = Ok dcm_folders race_world ∧
    StronglySorted String.le dcm_folders ∧
    NoDup dcm_folders ∧
    ∀ f, f ∈ dcm_folders →
         is_under "/data" f = true ∧
         ∃ e, e ∈ input race_world ∧ dirpath e = f ∧ has_dcm e = true.
Proof. apply (find_dcm_folders_sound "/data" race_world). reflexivity. Defined.

Lemma find_dcm_folders_absolute_witness :
  ∃ dcm_folders,
    run (find_dcm_folders "/data") race_world = Ok dcm_folders race_world ∧
    ∀ f, f ∈ dcm_folders ↔
         ∃ e, e ∈ input race_world ∧ dirpath e = f ∧ is_under "/data" f = true ∧
              has_dcm e = true.
Proof. apply (find_dcm_folders_absolute "/data" race_world); reflexivity. Defined.

(** ** Whole runs *)

Lemma found_folder_listed root_dir w dcm_folders f :
  run (find_dcm_folders root_dir) w = Ok dcm_folders w →
  f ∈ dcm_folders →
  ∃ e, e ∈ input w ∧ dirpath e = f ∧ has_dcm e = true.
Proof.
  rewrite run_find_dcm_folders. intros [= <-].
  intros (_ & e0 & e & _ & _ & Hfind & Hf)%found_folder_elem.
  apply find_some in Hfind as [Hin%list_elem_of_In Hdcm].
  unfold os_walk in Hin. apply list_elem_of_filter in Hin as [_ Hin]. eauto.
Qed.

Lemma run_load_readable w :
  lock_ex w = false →
  readable_checkpoint w = true →
  run load_processed_folders w = Ok (checkpoint_set w) w.
Proof.
  intros Hlock Hread. rewrite run_load_processed_folders, Hlock.
  unfold readable_checkpoint, checkpoint_set, doc_set in *.
  destruct (checkpoint w) as [[|doc|f]|]; try done.
  by destruct (py_set doc).
Qed.

Lemma run_merge_none w :
  temp_dir w = None →
  run merge_partial_results_and_cleanup w =
  Raise no_such_file
    (add_stdout ["Mergging all partial results and cleaning up temporary files..."] w).
Proof.
  intros Htmp. unfold merge_partial_results_and_cleanup.
  rewrite run_bind. cbn [run act perform obind]. rewrite run_bind.
  cbn [run act perform obind].
  by replace (temp_dir (add_stdout _ w)) with (@None (gmap string partial_file)) by done.
Qed.

Lemma run_merge_ok w w' :
  run merge_partial_results_and_cleanup w = Ok () w' → temp_dir w' = None.
Proof.
  destruct (temp_dir w) as [files|] eqn:Htmp.
  - rewrite (run_merge_some _ files) by done. by intros [= <-].
  - by rewrite run_merge_none.
Qed.

Lemma run_pool_finished sched (futures : list (prog unit)) w :
  Forall (λ p, p = Ret ()) futures →
  run_pool sched futures w = (futures, w) ∧ results futures = Some (Returns ()).
Proof.
  intros Hall. split.
  - induction sched as [|i sched IH]; [done|]. cbn [run_pool].
    assert (Hstep : pool_step i futures w = None).
    { unfold pool_step. destruct (futures !! i) as [p|] eqn:Hp; [|done].
      rewrite Forall_forall in Hall. by rewrite (Hall p) by by eapply list_elem_of_lookup_2. }
    by rewrite Hstep.
  - induction Hall as [|p futures -> _ IH]; [done|]. cbn [results]. by rewrite IH.
Qed.

Section Runs.

Context {obj : Type}.
Variables json_dumps py_str : value obj → res string.
Variable dicom_tag_to_dict : string → res (dict (value obj)).

Local Abbreviation worker :=
  (process_folder_and_save_results obj json_dumps py_str dicom_tag_to_dict).
Local Abbreviation collect :=
  (collect_and_process_dicom_data obj json_dumps py_str dicom_tag_to_dict).
Local Abbreviation main := (main obj json_dumps py_str dicom_tag_to_dict).

Lemma collect_ok root_dir o w w' :
  collect root_dir o w = Ok () w' → temp_dir w' = None.
Proof.
  unfold collect_and_process_dicom_data.
  destruct (run _ w) as [[folders processed] w1|?|?|?]; cbn [obind]; try done.
  destruct (run_pool _ _ w1) as [futures' w2].
  destruct (results futures') as [[[]|e]|]; try done.
  apply run_merge_ok.
Qed.

(** X16: [main] on a path that is not a directory exits with status 1 and
    has done nothing: no temp directory, no checkpoint file, no output,
    nothing on standard output. *)
Theorem main_bad_path (path : string) (o : oracle) (w : world) :
  lookup_dir w path = None →
  main path o w = Exited 1 w.
Proof.
  intros Hdir. unfold main. cbn [run bind act perform]. rewrite Hdir.
  rewrite bool_decide_eq_false_2 by by intros [? [=]]. done.
Qed.

(** X17: when [main] returns, its path was a directory, and neither the
    temp directory nor the checkpoint file is left behind; the last line
    printed is "Done.". *)
Theorem main_ok_cleans_up (path : string) (o : oracle) (w w' : world) :
  main path o w = Ok () w' →
  is_Some (lookup_dir w path) ∧
  temp_dir w' = None ∧ checkpoint w' = None ∧
  last (stdout w') = Some "Done.".
Proof.
  unfold main.
  assert (Hfirst : run (let! isdir := act (IsDir path) in
                        if isdir : bool then act (Print ["Collecting DICOM metadata..."])
                        else SysExit 1) w
                   = if bool_decide (is_Some (lookup_dir w path))
                     then Ok () (add_stdout ["Collecting DICOM metadata..."] w)
                     else Exited 1 w).
  { simpl. by case_bool_decide. }
  rewrite Hfirst. clear Hfirst. case_bool_decide as Hdir; [|done]. cbn [obind].
  destruct (collect path o (add_stdout ["Collecting DICOM metadata..."] w))
    as [[] w2|?|?|?] eqn:Hcollect; cbn [obind]; try done.
  apply collect_ok in Hcollect. rewrite run_bind. cbn [run act perform].
  destruct (checkpoint w2) eqn:Hck; cbn [obind run perform]; [|done].
  intros [= <-]. split; [done|]. split; [done|]. split; [done|].
  cbn [stdout add_stdout]. by rewrite last_snoc.
Qed.

(** X18: a resumed run that finds every folder in the checkpoint.  If the
    temp directory is in place, no exclusive lock is held, the checkpoint
    file is readable and names every listed directory that holds a file
    ending in ".dcm", then [collect_and_process_dicom_data] decodes
    nothing and writes no partial file: whatever the scheduling, it merges
    the partial files that were there and removes the temp directory, and
    the checkpoint file is as before. *)
Theorem resumed_run_only_merges
    (root_dir : string) (o : oracle) (w : world) (files : gmap string partial_file) :
  temp_dir w = Some files →
  lock_ex w = false →
  readable_checkpoint w = true →
  (∀ e, e ∈ input w → has_dcm e = true → HStr (dirpath e) ∈ checkpoint_set w) →
  ∃ w', collect root_dir o w = Ok () w' ∧
        journal w' = journal w ∧
        checkpoint w' = checkpoint w ∧
        temp_dir w' = None ∧
        output w' =
          match json_names files with
          | [] => output w
          | _ => Some (final_table (merged_rows files))
          end.
Proof.
  intros Htmp Hlock Hread Hall. unfold collect_and_process_dicom_data.
  assert (Hmk : run create_temp_dir w = Ok () w).
  { unfold create_temp_dir. cbn [run act perform]. by rewrite Htmp. }
  rewrite run_bind, Hmk. cbn [obind].
  rewrite run_bind, run_find_dcm_folders. cbn [obind].
  rewrite run_bind, run_load_readable by done. cbn [obind run fst snd].
  set (dcm_folders := merge_sort _ _).
  assert (Hskip : Forall (λ p, p = Ret ())
            (map (λ folder, worker folder (checkpoint_set w)
                              (completion o folder) (uuid4 o folder)) dcm_folders)).
  { apply Forall_forall. intros p. change (map ?g ?l) with (g <$> l).
    intros (folder & -> & Hin)%list_elem_of_fmap.
    destruct (found_folder_listed root_dir w dcm_folders folder) as (e & He & <- & Hdcm);
      [apply run_find_dcm_folders|done|].
    unfold process_folder_and_save_results.
    rewrite bool_decide_eq_false_2; [done|]. intros Hnot. by apply Hnot, Hall. }
  destruct (run_pool_finished (schedule o) _ w Hskip) as [Hpool Hres].
  rewrite Hpool, Hres, (run_merge_some _ files) by done.
  eexists. split; [done|].
  destruct (json_names files); by repeat split.
Qed.

End Runs.

Lemma main_bad_path_witness :
  main unit demo_dumps demo_str demo_decoder "/nowhere" (Oracle [] (λ _, []) (λ _, ""))
       demo_world
  = Exited 1 demo_world.
Proof. apply (main_bad_path demo_dumps demo_str demo_decoder); reflexivity. Defined.

Lemma main_ok_cleans_up_witness :
  ∃ w',
    main unit demo_dumps demo_str demo_decoder "/data"
         (Oracle (replicate 12 0) (λ _, []) (λ _, "0b5e")) demo_world = Ok () w' ∧
    is_Some (lookup_dir demo_world "/data") ∧
    temp_dir w' = None ∧ checkpoint w' = None ∧
    last (stdout w') = Some "Done.".
Proof.
  eexists. split; [vm_compute; reflexivity|].
  apply (main_ok_cleans_up demo_dumps demo_str demo_decoder "/data"
           (Oracle (replicate 12 0) (λ _, []) (λ _, "0b5e")) demo_world).
  vm_compute. reflexivity.
Defined.

Lemma resumed_run_only_merges_witness :
  let w := World (input race_world)
             (Some {[ "part_0_1f0e.json" := Batch [[("DicomPath", "/data/a/x.dcm")]] ]})
             (Some (Document (JArr [JStr "/data/a"; JStr "/data/b"])))
             0 false None [] [EvSaved "/data/a"; EvSaved "/data/b"] in
  ∃ w', collect_and_process_dicom_data unit demo_dumps demo_str demo_decoder "/data"
          (Oracle [0; 1; 0] (λ _, []) (λ _, "77c2")) w = Ok () w' ∧
        journal w' = journal w ∧
        checkpoint w' = checkpoint w ∧
        temp_dir w' = None ∧
        output w' =
          match json_names {[ "part_0_1f0e.json" := Batch [[("DicomPath", "/data/a/x.dcm")]] ]} with
          | [] => output w
          | _ => Some (final_table (merged_rows
                   {[ "part_0_1f0e.json" := Batch [[("DicomPath", "/data/a/x.dcm")]] ]}))
          end.
Proof.
  apply (resumed_run_only_merges demo_dumps demo_str demo_decoder); try reflexivity.
  intros e He Hdcm. cbn [input race_world] in He.
  unfold checkpoint_set, doc_set. cbn.
  repeat (apply elem_of_cons in He as [->|He]; [try done; set_solver|]).
  by apply elem_of_nil in He.
Defined.

(** ** What the workers leave alone *)

Lemma nothing_lost_refl w : nothing_lost w w.
Proof. repeat split; try done. intros files Htmp. eauto. Qed.

Lemma nothing_lost_trans w1 w2 w3 :
  nothing_lost w1 w2 → nothing_lost w2 w3 → nothing_lost w1 w3.
Proof.
  intros (Hi1 & Ho1 & Ht1 & Hc1) (Hi2 & Ho2 & Ht2 & Hc2).
  split; [congruence|]. split; [congruence|]. split; [|auto].
  intros files Htmp. destruct (Ht1 _ Htmp) as (files2 & Htmp2 & Hsub1).
  destruct (Ht2 _ Htmp2) as (files3 & Htmp3 & Hsub2). eauto 10.
Qed.

Lemma perform_nothing_lost {B} (a : action B) w r w' :
  removes_or_publishes a = false →
  perform a w = Some (r, w') →
  nothing_lost w w'.
Proof.
  intros Ha Hp.
  assert (Hins : ∀ files name (f : partial_file),
            temp_dir w = Some files →
            nothing_lost w (set_temp_dir (Some (<[name := f]> files)) w)).
  { intros files name f Htmp. repeat split; try done.
    intros files0 Htmp0. exists (<[name := f]> files). split; [done|].
    intros name' Hsome. rewrite Htmp in Htmp0. simplify_eq.
    apply lookup_insert_is_Some. destruct (decide (name = name')); auto. }
  perform_cases a Hp; try done; try apply nothing_lost_refl; try (by eapply Hins);
    repeat split; try done; simpl; intros; simplify_eq; eauto.
Qed.

Lemma only_adds_bind {A C} (p : prog A) (f : A → prog C) :
  only_adds p → (∀ a, only_adds (f a)) → only_adds (bind p f).
Proof.
  intros Hp Hf. induction p as [a|e|c|B a k IHk h IHh]; simpl; try done.
  destruct Hp as (Ha & Hk & Hh). auto.
Qed.

Lemma only_adds_try_except {A} (p : prog A) (handler : exn → prog A) :
  only_adds p → (∀ e, only_adds (handler e)) → only_adds (try_except p handler).
Proof.
  intros Hp Hh. induction p as [a|e|c|B a k IHk h IHh]; simpl; try done.
  destruct Hp as (Ha & Hk & Hh'). auto.
Qed.

Lemma only_adds_load_processed_folders : only_adds load_processed_folders.
Proof.
  unfold load_processed_folders. apply only_adds_try_except.
  - simpl. repeat split; try done. intros _. by destruct (py_set _).
  - intros e. by destruct (exn_cls e).
Qed.

Lemma only_adds_mark_folder_as_processed folder : only_adds (mark_folder_as_processed folder).
Proof.
  unfold mark_folder_as_processed.
  apply only_adds_bind; [apply only_adds_load_processed_folders|].
  intros processed. simpl. repeat split; done.
Qed.

Lemma pool_step_nothing_lost i futures w futures' w' :
  Forall only_adds futures →
  pool_step i futures w = Some (futures', w') →
  Forall only_adds futures' ∧ nothing_lost w w'.
Proof.
  intros Hall Hstep. unfold pool_step in Hstep.
  destruct (futures !! i) as [p|] eqn:Hi; [|done].
  destruct p as [a|e|c|B a k h]; try done.
  destruct (perform a w) as [[r w2]|] eqn:Hp; [|done].
  pose proof (Forall_lookup_1 _ _ _ _ Hall Hi) as (Ha & Hk & Hh).
  pose proof (perform_nothing_lost _ _ _ _ Ha Hp) as Hkeep.
  destruct r as [b|e]; simplify_eq; (split; [by apply Forall_insert|done]).
Qed.

Lemma run_pool_nothing_lost sched futures w :
  Forall only_adds futures → nothing_lost w (run_pool sched futures w).2.
Proof.
  revert futures w. induction sched as [|i sched IH]; intros futures w Hall; simpl.
  - apply nothing_lost_refl.
  - destruct (pool_step i futures w) as [[futures' w']|] eqn:Hstep; [|by apply IH].
    destruct (pool_step_nothing_lost _ _ _ _ _ Hall Hstep) as [Hall' Hkeep].
    eapply nothing_lost_trans; [exact Hkeep|by apply IH].
Qed.

Section WorkersAdd.

Context {obj : Type}.
Variables json_dumps py_str : value obj → res string.
Variable dicom_tag_to_dict : string → res (dict (value obj)).

Local Abbreviation worker :=
  (process_folder_and_save_results obj json_dumps py_str dicom_tag_to_dict).

Lemma only_adds_worker folder processed_folders order unique_id :
  only_adds (worker folder processed_folders order unique_id).
Proof.
  unfold process_folder_and_save_results. case_bool_decide; [|done].
  apply only_adds_bind.
  { unfold process_folder. simpl. repeat split; done. }
  intros rs. apply only_adds_bind; [simpl; repeat split; done|].
  intros names. apply only_adds_bind.
  { unfold save_partial_results. simpl. repeat split; done. }
  intros _. apply only_adds_bind; [simpl; repeat split; done|].
  intros _. apply only_adds_mark_folder_as_processed.
Qed.

(** X19: up to the merge stage nothing is published and nothing is
    deleted.  In every state the worker pool can reach, whatever the
    schedule, the completion orders and the UUIDs, the output file is as it
    was at the start, the temp directory and every file that was in it are
    still there, and so is the checkpoint file if there was one. *)
Theorem workers_lose_nothing
    (folders : list string) (processed_folders : pyset)
    (completion : string → list nat) (uuid4 : string → string)
    (sched : list nat) (w0 : world) :
  let futures :=
    map (λ folder, worker folder processed_folders (completion folder) (uuid4 folder))
        folders in
  let state := run_pool sched futures w0 in
  input state.2 = input w0 ∧
  output state.2 = output w0 ∧
  (∀ files, temp_dir w0 = Some files →
     ∃ files', temp_dir state.2 = Some files' ∧
               ∀ name, is_Some (files !! name) → is_Some (files' !! name)) ∧
  (is_Some (checkpoint w0) → is_Some (checkpoint state.2)).
Proof.
  intros futures state. apply run_pool_nothing_lost.
  apply Forall_forall. intros p. unfold futures. change (map ?g ?l) with (g <$> l).
  intros (folder & -> & _)%list_elem_of_fmap. apply only_adds_worker.
Qed.

End WorkersAdd.

(** ** From the file to its record *)

Section FileToRecord.

Context {obj : Type}.
Variables json_dumps py_str : value obj → res string.
Variable dcmread : string → res (Decoder.element obj).

Local Abbreviation stringify := (stringify_value obj json_dumps py_str).
Local Abbreviation pfile :=
  (process_file obj json_dumps py_str (Decoder.dicom_tag_to_dict obj dcmread)).

(** X20: [process_file] over the element walk.  When [dcmread] raises, the
    record holds the path only and one line is printed.  When it returns a
    tree, nothing is printed, "DicomPath" holds the path, and any other
    field holds the text of the value of the last kept element filed under
    its name in document order; a name under which no kept element is
    filed is not a field. *)
Theorem process_file_of_tree (filepath : string) :
  match dcmread filepath with
  | Raises e =>
      pfile filepath =
      ([("DicomPath", filepath)],
       ["Error processing file " +:+ filepath +:+ ": " +:+ exn_msg e])
  | Returns dicom_file =>
      snd (pfile filepath) = [] ∧
      dict_get "DicomPath" (fst (pfile filepath)) = Some filepath ∧
      ∀ k, k ≠ "DicomPath" →
           match Decoder.last_kept obj k (Decoder.leaves obj dicom_file "") with
           | Some v => ∃ s, stringify v = Returns s ∧
                            dict_get k (fst (pfile filepath)) = Some s
           | None => dict_get k (fst (pfile filepath)) = None
           end
  end.
Proof.
  unfold process_file, Decoder.dicom_tag_to_dict.
  destruct (dcmread filepath) as [dicom_file|e]; [|done].
  set (d := Decoder.process_element obj dicom_file "" []).
  destruct (stringify_items obj json_dumps py_str d) as [r|e] eqn:Hr.
  2:{ destruct (stringify_items_returns json_dumps py_str d) as [r' Hr'].
      by rewrite Hr in Hr'. }
  cbn [fst snd]. split; [done|]. split; [apply dict_get_set_eq|].
  intros k Hk. rewrite dict_get_set_ne by done.
  pose proof (stringify_items_get json_dumps py_str d r k Hr) as Hget.
  unfold d in Hget. rewrite process_element_leaves, fold_file_leaf_get in Hget.
  by destruct (Decoder.last_kept obj k (Decoder.leaves obj dicom_file "")).
Qed.

End FileToRecord.

(** ** The partial files under interleaving *)

Lemma length_app_string s t :
  String.length (s +:+ t) = (String.length s + String.length t)%nat.
Proof. induction s as [|c s IH]; simpl; [done|]. by rewrite IH. Qed.

Lemma app_inv_tail_string s1 s2 t : s1 +:+ t = s2 +:+ t → s1 = s2.
Proof.
  revert s2. induction s1 as [|c s1 IH]; intros [|d s2] H; simpl in H.
  - done.
  - exfalso. apply (f_equal String.length) in H. simpl in H.
    rewrite ?length_app_string in H. simpl in H. lia.
  - exfalso. apply (f_equal String.length) in H. simpl in H.
    rewrite ?length_app_string in H. simpl in H. lia.
  - injection H as -> H. f_equal. by apply IH.
Qed.

Lemma split_at_sep s1 s2 t1 t2 :
  no_sep s1 = true → no_sep s2 = true →
  s1 +:+ String "_" t1 = s2 +:+ String "_" t2 → t1 = t2.
Proof.
  revert s2. induction s1 as [|c s1 IH]; intros [|d s2] H1 H2 H; simpl in *.
  - by injection H.
  - injection H as <- _. done.
  - injection H as -> _. done.
  - injection H as -> H. apply andb_true_iff in H1 as [_ H1].
    apply andb_true_iff in H2 as [_ H2]. by eapply IH.
Qed.

Lemma pretty_N_go_no_sep x s : no_sep s = true → no_sep (pretty_N_go x s) = true.
Proof.
  revert s. induction (N.lt_wf_0 x) as [x _ IH]; intros s Hs.
  assert (x = 0 ∨ 0 < x)%N as [->|Hpos] by lia; [by rewrite pretty_N_go_0|].
  rewrite pretty_N_go_step by done. apply IH; [by apply N.div_lt|].
  simpl. rewrite Hs, andb_true_r. unfold pretty_N_char. by repeat case_match.
Qed.

Lemma pretty_nat_no_sep (n : nat) : no_sep (pretty n) = true.
Proof.
  unfold pretty, pretty_nat, pretty, pretty_N. case_decide; [done|].
  by apply pretty_N_go_no_sep.
Qed.

Lemma part_name_inj index unique_id index' unique_id' :
  part_name index unique_id = part_name index' unique_id' → unique_id = unique_id'.
Proof.
  unfold part_name. intros H. apply (inj (String.app "part_")) in H.
  apply split_at_sep in H; [|apply pretty_nat_no_sep..].
  by apply app_inv_tail_string in H.
Qed.

Lemma mine_disjoint unique_id unique_id' name :
  mine unique_id name → mine unique_id' name → unique_id = unique_id'.
Proof. intros [k ->] [k' H]. by apply part_name_inj in H. Qed.

Lemma undisturbed_refl unique_id w : undisturbed unique_id w w.
Proof. split; [done|]. intros files Htmp. eauto. Qed.

Lemma undisturbed_trans unique_id w1 w2 w3 :
  undisturbed unique_id w1 w2 → undisturbed unique_id w2 w3 → undisturbed unique_id w1 w3.
Proof.
  intros [Hi1 Ht1] [Hi2 Ht2]. split; [congruence|].
  intros files Htmp. destruct (Ht1 _ Htmp) as (files2 & Htmp2 & Hsame1).
  destruct (Ht2 _ Htmp2) as (files3 & Htmp3 & Hsame2).
  exists files3. split; [done|]. intros name Hmine.
  by rewrite Hsame2, Hsame1.
Qed.

Lemma holds_batch_undisturbed unique_id rs w w' :
  holds_batch unique_id rs w → undisturbed unique_id w w' → holds_batch unique_id rs w'.
Proof.
  intros (k & files & Htmp & Hfile) [_ Hund].
  destruct (Hund _ Htmp) as (files' & Htmp' & Hsame).
  exists k, files'. split; [done|]. rewrite Hsame; [done|]. by exists k.
Qed.

Lemma delivers_undisturbed unique_id {A} (p : prog A) Q w w' :
  delivers unique_id p Q w → undisturbed unique_id w w' → delivers unique_id p Q w'.
Proof.
  destruct p as [a|e|c|B a k h]; simpl; try done.
  - intros H Hund w1 Hund1. apply H. by eapply undisturbed_trans.
  - intros H Hund w1 Hund1. apply H. by eapply undisturbed_trans.
Qed.

Lemma perform_input {B} (a : action B) w r w' :
  perform a w = Some (r, w') → input w' = input w.
Proof. intros Hp. perform_cases a Hp; done. Qed.

Lemma perform_neutral {B} (a : action B) w r w' :
  temp_neutral a = true → perform a w = Some (r, w') → temp_dir w' = temp_dir w.
Proof. intros Ha Hp. perform_cases a Hp; done. Qed.

Lemma perform_undisturbed unique_id unique_id' {B} (a : action B) w r w' :
  own_write unique_id a →
  unique_id' ≠ unique_id →
  perform a w = Some (r, w') →
  undisturbed unique_id' w w'.
Proof.
  intros Hown Hne Hp. split; [by eapply perform_input|].
  intros files Htmp.
  assert (Hins : ∀ name (f : partial_file),
            mine unique_id name →
            ∀ name', mine unique_id' name' → <[name := f]> files !! name' = files !! name').
  { intros name f Hmine name' Hmine'. apply lookup_insert_ne. intros ->.
    apply Hne. by eapply mine_disjoint. }
  destruct (temp_neutral a) eqn:Hneutral.
  - rewrite (perform_neutral _ _ _ _ Hneutral Hp). eauto.
  - destruct a; try done; simpl in Hown, Hp; rewrite Htmp in Hp; simplify_eq;
      eexists; (split; [done|]); by apply Hins.
Qed.

Lemma delivers_bind unique_id {A C} (p : prog A) (f : A → prog C) Q w :
  delivers unique_id p (λ a w', delivers unique_id (f a) Q w') w →
  delivers unique_id (bind p f) Q w.
Proof.
  revert w. induction p as [a|e|c|B a k IHk h IHh]; intros w; simpl; try done.
  - intros H. apply H, undisturbed_refl.
  - intros H w1 Hund. destruct (H w1 Hund) as [Hown Hnext]. split; [done|].
    intros [b|e] w2 Hp; [apply IHk|apply IHh]; apply (Hnext _ _ Hp).
Qed.

Lemma neutral_bind {A C} (p : prog A) (f : A → prog C) :
  neutral p → (∀ a, neutral (f a)) → neutral (bind p f).
Proof.
  intros Hp Hf. induction p as [a|e|c|B a k IHk h IHh]; simpl; try done.
  destruct Hp as (Ha & Hk & Hh). auto.
Qed.

Lemma neutral_try_except {A} (p : prog A) (handler : exn → prog A) :
  neutral p → (∀ e, neutral (handler e)) → neutral (try_except p handler).
Proof.
  intros Hp Hh. induction p as [a|e|c|B a k IHk h IHh]; simpl; try done.
  destruct Hp as (Ha & Hk & Hh'). auto.
Qed.

Lemma neutral_mark_folder_as_processed folder : neutral (mark_folder_as_processed folder).
Proof.
  unfold mark_folder_as_processed. apply neutral_bind.
  - unfold load_processed_folders. apply neutral_try_except.
    + simpl. repeat split; try done. intros _. by destruct (py_set _).
    + intros e. by destruct (exn_cls e).
  - intros processed. simpl. repeat split; done.
Qed.

Lemma delivers_neutral unique_id rs {A} (p : prog A) w :
  neutral p →
  holds_batch unique_id rs w →
  delivers unique_id p (λ _ w', holds_batch unique_id rs w') w.
Proof.
  revert w. induction p as [a|e|c|B a k IHk h IHh]; intros w Hn Hb; simpl; try done.
  - intros w1 Hund. by eapply holds_batch_undisturbed.
  - destruct Hn as (Ha & Hk & Hh). intros w1 Hund. split.
    { destruct a; simpl in *; done. }
    intros r w2 Hp.
    assert (Hb2 : holds_batch unique_id rs w2).
    { pose proof (holds_batch_undisturbed _ _ _ _ Hb Hund) as (i & files & Htmp & Hfile).
      exists i, files. by rewrite (perform_neutral _ _ _ _ Ha Hp). }
    destruct r as [b|e]; [by apply IHk|by apply IHh].
Qed.

Lemma delivers_mono unique_id {A} (p : prog A) (Q Q' : A → world → Prop) w :
  (∀ a w', Q a w' → Q' a w') → delivers unique_id p Q w → delivers unique_id p Q' w.
Proof.
  intros HQ. revert w. induction p as [a|e|c|B a k IHk h IHh]; intros w; simpl; try done.
  - intros H w1 Hund. by apply HQ, H.
  - intros H w1 Hund. destruct (H w1 Hund) as [Hown Hnext]. split; [done|].
    intros [b|e] w2 Hp; [apply IHk|apply IHh]; apply (Hnext _ _ Hp).
Qed.

Lemma delivers_act unique_id {B} (a : action B) (Q : B → world → Prop) w :
  own_write unique_id a →
  (∀ w1 b w2, undisturbed unique_id w w1 → perform a w1 = Some (Returns b, w2) →
              ∀ w3, undisturbed unique_id w2 w3 → Q b w3) →
  delivers unique_id (act a) Q w.
Proof.
  intros Hown HQ. simpl. intros w1 Hund. split; [done|].
  intros [b|e] w2 Hp; simpl; [|done]. intros w3 Hund3. by eapply HQ.
Qed.

Lemma lookup_dir_input w w' path : input w' = input w → lookup_dir w' path = lookup_dir w path.
Proof. unfold lookup_dir. by intros ->. Qed.

Lemma results_finished (futures : list (prog unit)) p :
  results futures = Some (Returns ()) → p ∈ futures → p = Ret () ∨ ∃ c, p = SysExit c.
Proof.
  induction futures as [|q futures IH]; [by intros _ ?%elem_of_nil|].
  cbn [results]. intros Hres Hin.
  assert (results futures = Some (Returns ()) ∧ (q = Ret () ∨ ∃ c, q = SysExit c)) as [Hrest Hq].
  { destruct q as [[]|e|c|B a k h]; try done; destruct (results futures) as [[[]|e']|];
      try done; eauto. }
  apply elem_of_cons in Hin as [->|Hin]; [done|]. by apply IH.
Qed.

Section PartialFiles.

Context {obj : Type}.
Variables json_dumps py_str : value obj → res string.
Variable dicom_tag_to_dict : string → res (dict (value obj)).

Local Abbreviation pfile := (process_file obj json_dumps py_str dicom_tag_to_dict).
Local Abbreviation pfolder := (process_folder obj json_dumps py_str dicom_tag_to_dict).
Local Abbreviation worker :=
  (process_folder_and_save_results obj json_dumps py_str dicom_tag_to_dict).
Local Abbreviation collect :=
  (collect_and_process_dicom_data obj json_dumps py_str dicom_tag_to_dict).

(** What the worker of [folder] saves, given the listing at the start. *)
Local Abbreviation folder_records w folder order :=
  (match lookup_dir w folder with
   | Some e =>
       map fst (flat_map (map pfile)
                  (completed_chunks (dcm_filepaths folder (dirnames e ++ filenames e)) order))
   | None => []
   end).

Lemma delivers_process_folder unique_id folder order w0 w (Q : list Record → world → Prop) :
  input w = input w0 →
  (∀ w', input w' = input w0 → Q (folder_records w0 folder order) w') →
  delivers unique_id (pfolder folder order) Q w.
Proof.
  intros Hin HQ. unfold process_folder. cbn [bind act delivers].
  intros w1 [Hin1 _]. split; [done|]. intros r w2 Hp. cbn [perform] in Hp.
  rewrite (lookup_dir_input w0 w1) in Hp by congruence.
  destruct (lookup_dir w0 folder) as [e|] eqn:Hdir; simplify_eq; [|done].
  cbn [delivers]. intros w3 [Hin3 _]. split; [done|]. intros r w4 Hp.
  pose proof (perform_input _ _ _ _ Hp) as Hin4. cbn [perform] in Hp. simplify_eq.
  cbn [delivers]. intros w5 [Hin5 _]. split; [done|]. intros r w6 Hp.
  pose proof (perform_input _ _ _ _ Hp) as Hin6. cbn [perform] in Hp. simplify_eq.
  cbn [delivers]. intros w7 [Hin7 _]. apply HQ. congruence.
Qed.

Lemma delivers_save_partial_results unique_id rs index w :
  delivers unique_id (save_partial_results rs index unique_id)
    (λ _ w', holds_batch unique_id rs w') w.
Proof.
  unfold save_partial_results. fold (part_name index unique_id). cbn [bind act delivers].
  intros w1 _. split; [by exists index|]. intros r w2 Hp. cbn [perform] in Hp.
  destruct (temp_dir w1) as [files|] eqn:Htmp; simplify_eq; [|done].
  cbn [delivers]. intros w3 _. split; [by exists index|]. intros r w4 Hp. cbn [perform] in Hp.
  destruct (temp_dir w3) as [files3|] eqn:Htmp3; simplify_eq; [|done].
  cbn [delivers]. intros w5 Hund. eapply holds_batch_undisturbed; [|exact Hund].
  exists index, (<[part_name index unique_id := Batch rs]> files3).
  split; [done|]. apply lookup_insert_eq.
Qed.

Lemma delivers_worker folder processed_folders order unique_id w0 w :
  input w = input w0 →
  delivers unique_id (worker folder processed_folders order unique_id)
    (λ _ w', HStr folder ∈ processed_folders ∨
             holds_batch unique_id (folder_records w0 folder order) w') w.
Proof.
  intros Hin. unfold process_folder_and_save_results. case_bool_decide as Hnew.
  2:{ cbn [delivers]. intros w1 _. by left. }
  apply delivers_bind, (delivers_process_folder _ _ _ w0); [done|].
  intros w1 Hin1. apply delivers_bind, delivers_act; [done|].
  intros w2 names w3 _ _ w4 _.
  apply delivers_bind.
  eapply delivers_mono; [|apply delivers_save_partial_results].
  intros u w5 Hb. cbn beta in *.
  eapply delivers_mono;
    [|apply (delivers_neutral unique_id (folder_records w0 folder order) _ w5); [|exact Hb]].
  - intros u' w6 Hb6. by right.
  - apply neutral_bind; [cbn; repeat split; done|].
    intros _. apply neutral_mark_folder_as_processed.
Qed.

Section Pool.

Variables (processed_folders : pyset) (completion : string → list nat)
          (uuid4 : string → string) (w0 : world).

Local Abbreviation delivered folder p w :=
  (delivers (uuid4 folder) p
     (λ _ w', HStr folder ∈ processed_folders ∨
              holds_batch (uuid4 folder) (folder_records w0 folder (completion folder)) w') w).

Lemma pool_step_delivers folders i futures w futures' w' :
  NoDup (uuid4 <$> folders) →
  Forall2 (λ folder p, delivered folder p w) folders futures →
  pool_step i futures w = Some (futures', w') →
  Forall2 (λ folder p, delivered folder p w') folders futures'.
Proof.
  intros Hnd Hall Hstep. unfold pool_step in Hstep.
  destruct (futures !! i) as [p|] eqn:Hi; [|done].
  destruct p as [a|e|c|B a k h]; try done.
  destruct (perform a w) as [[r w2]|] eqn:Hp; [|done].
  destruct (Forall2_lookup_r _ _ _ _ _ Hall Hi) as (folder_i & Hfi & Hdel).
  cbn [delivers] in Hdel. destruct (Hdel w (undisturbed_refl _ _)) as [Hown Hnext].
  specialize (Hnext _ _ Hp).
  assert (Hlen : length folders = length futures) by by eapply Forall2_length.
  assert (Hothers : ∀ j folder q, j ≠ i → folders !! j = Some folder → futures !! j = Some q →
                                  delivered folder q w2).
  { intros j folder q Hji Hfj Hqj.
    pose proof (Forall2_lookup_lr _ _ _ j _ _ Hall Hfj Hqj) as Hd. cbn beta in Hd.
    eapply delivers_undisturbed; [exact Hd|].
    eapply perform_undisturbed; [exact Hown| |exact Hp].
      intros Heq. apply Hji. eapply (NoDup_lookup (uuid4 <$> folders)); [done| |].
      + by rewrite list_lookup_fmap, Hfj.
      + by rewrite list_lookup_fmap, Hfi, Heq. }
  assert (Hi' : i < length futures) by by eapply lookup_lt_Some.
  destruct r as [b|e]; simplify_eq;
    (apply Forall2_same_length_lookup_2; [by rewrite length_insert|];
     intros j folder q Hfj Hqj; destruct (decide (j = i)) as [->|Hji];
     [rewrite list_lookup_insert_eq in Hqj by done; by simplify_eq
     |rewrite list_lookup_insert_ne in Hqj by done; by eapply Hothers]).
Qed.

Lemma run_pool_delivers folders sched futures w :
  NoDup (uuid4 <$> folders) →
  Forall2 (λ folder p, delivered folder p w) folders futures →
  Forall2 (λ folder p, delivered folder p (run_pool sched futures w).2)
          folders (run_pool sched futures w).1.
Proof.
  intros Hnd. revert futures w.
  induction sched as [|i sched IH]; intros futures w Hall; simpl; [done|].
  destruct (pool_step i futures w) as [[futures' w']|] eqn:Hstep; [|by apply IH].
  apply IH. by eapply pool_step_delivers.
Qed.

End Pool.

Lemma run_load_ok w s w' :
  run load_processed_folders w = Ok s w' → s = checkpoint_set w ∧ w' = w.
Proof.
  rewrite run_load_processed_folders. unfold checkpoint_set, doc_set.
  destruct (checkpoint w) as [[|doc|f]|]; [| | |by intros [= <- <-]].
  - destruct (lock_ex w); [done|]. by intros [= <- <-].
  - destruct (lock_ex w); [done|]. destruct (py_set doc) as [s'|e]; [by intros [= <- <-]|].
    destruct (exn_cls e); try done; by intros [= <- <-].
  - by destruct (lock_ex w).
Qed.

(** X21: interleaving does not lose results.  Take any run of
    [collect_and_process_dicom_data] that returns, under any schedule and
    any completion orders, in which the UUIDs of different folders are
    different.  Then for every folder that the scan found and that was not
    in the checkpoint at the start, the record of each of its ".dcm" files
    is a row of the table written at the end. *)
Theorem merged_table_complete
    (root_dir : string) (o : oracle) (w w' : world)
    (dcm_folders : list string) (folder : string) (e : walk_entry) (p : string) :
  (∀ f1 f2, uuid4 o f1 = uuid4 o f2 → f1 = f2) →
  run (find_dcm_folders root_dir) w = Ok dcm_folders w →
  collect root_dir o w = Ok () w' →
  folder ∈ dcm_folders →
  HStr folder ∉ checkpoint_set w →
  lookup_dir w folder = Some e →
  p ∈ dcm_filepaths folder (dirnames e ++ filenames e) →
  ∃ rows, output w' = Some (final_table rows) ∧ fst (pfile p) ∈ rows.
Proof.
  intros Hinj Hfind Hrun Hfolder Hnew Hdir Hp.
  unfold collect_and_process_dicom_data in Hrun.
  assert (Hmk : ∃ w1, run create_temp_dir w = Ok () w1 ∧ input w1 = input w ∧
                      checkpoint_set w1 = checkpoint_set w ∧
                      run (find_dcm_folders root_dir) w1 = Ok dcm_folders w1).
  { rewrite run_find_dcm_folders in Hfind. injection Hfind as <-.
    unfold create_temp_dir. cbn [run act perform].
    destruct (temp_dir w); eexists; (split; [done|]); repeat split;
      by rewrite run_find_dcm_folders. }
  destruct Hmk as (w1 & Hmk & Hin1 & Hck1 & Hfind1).
  rewrite run_bind, Hmk in Hrun. cbn [obind] in Hrun.
  rewrite run_bind, Hfind1 in Hrun. cbn [obind] in Hrun.
  rewrite run_bind in Hrun.
  destruct (run load_processed_folders w1) as [s w1'|?|?|?] eqn:Hload; try done.
  apply run_load_ok in Hload as [-> ->]. rewrite Hck1 in Hrun.
  cbn [obind run fst snd] in Hrun.
  set (futures := map _ dcm_folders) in Hrun.
  assert (Hnd : NoDup (uuid4 o <$> dcm_folders)).
  { apply (@NoDup_fmap_2 _ _ (uuid4 o) Hinj).
    rewrite run_find_dcm_folders in Hfind. injection Hfind as <-.
    rewrite merge_sort_Permutation. apply NoDup_remove_dups. }
  pose proof (run_pool_delivers (checkpoint_set w) (completion o) (uuid4 o) w
                dcm_folders (schedule o) futures w1 Hnd) as Hpool.
  destruct (run_pool (schedule o) futures w1) as [futures' w2].
  cbn [fst snd] in Hpool.
  destruct (results futures') as [[[]|?]|] eqn:Hres; try done.
  assert (Hall : Forall2 (λ folder q,
            delivers (uuid4 o folder) q
              (λ _ w', HStr folder ∈ checkpoint_set w ∨
                       holds_batch (uuid4 o folder)
                         (folder_records w folder (completion o folder)) w') w2)
            dcm_folders futures').
  { apply Hpool. unfold futures. change (map ?g ?l) with (g <$> l).
    apply Forall2_fmap_r, Forall_Forall2_diag, Forall_forall.
    intros f _. by apply delivers_worker. }
  apply list_elem_of_lookup in Hfolder as [i Hi].
  destruct (Forall2_lookup_l _ _ _ _ _ Hall Hi) as (q & Hq & Hdel).
  assert (Hb : holds_batch (uuid4 o folder)
                 (folder_records w folder (completion o folder)) w2).
  { destruct (results_finished futures' q Hres) as [->|[c ->]];
      [by eapply list_elem_of_lookup_2| |done].
    cbn [delivers] in Hdel. by destruct (Hdel w2 (undisturbed_refl _ _)). }
  rewrite Hdir in Hb. destruct Hb as (k & files & Htmp & Hfile).
  rewrite (run_merge_some _ files) in Hrun by done. injection Hrun as <-.
  destruct (json_names files) as [|n ns] eqn:Hnames.
  { assert (Hin : part_name k (uuid4 o folder) ∈ json_names files).
    { apply json_names_elem. split; [apply part_name_json|eauto]. }
    rewrite Hnames in Hin. by apply elem_of_nil in Hin. }
  exists (merged_rows files). split; [done|].
  apply merged_rows_elem. eexists _, _. split; [apply part_name_json|]. split; [exact Hfile|].
  rewrite process_folder_records. change (map ?g ?l) with (g <$> l).
  apply list_elem_of_fmap. exists p. split; [done|].
  by rewrite completed_chunks_Permutation.
Qed.

End PartialFiles.

Lemma merged_table_complete_witness :
  let o := Oracle (replicate 12 0) (λ _, []) (λ folder, folder) in
  ∃ w' rows,
    collect_and_process_dicom_data unit demo_dumps demo_str demo_decoder "/data" o demo_world
      = Ok () w' ∧
    output w' = Some (final_table rows) ∧
    fst (process_file unit demo_dumps demo_str demo_decoder "/data/s1/a.dcm") ∈ rows.
Proof.
  intros o.
  assert (Hrun : ∃ w', collect_and_process_dicom_data unit demo_dumps demo_str demo_decoder
                         "/data" o demo_world = Ok () w').
  { eexists. vm_compute. reflexivity. }
  destruct Hrun as [w' Hrun]. exists w'.
  destruct (merged_table_complete demo_dumps demo_str demo_decoder "/data" o demo_world w'
              ["/data/s1"] "/data/s1" demo_entry "/data/s1/a.dcm") as (rows & Hout & Hin).
  - intros f1 f2 H. exact H.
  - vm_compute. reflexivity.
  - exact Hrun.
  - by left.
  - change (HStr "/data/s1" ∉ (∅ : pyset)). apply not_elem_of_empty.
  - reflexivity.
  - vm_compute. left.
  - eauto.
Defined.

(** ** Results on disk before the checkpoint *)

Lemma settled_bind {A C} (p : prog A) (f : A → prog C) :
  settled p → (∀ a, settled (f a)) → settled (bind p f).
Proof.
  intros Hp Hf. induction p as [a|e|c|B a k IHk h IHh]; simpl; try done.
  destruct Hp as (Ha & Hg & Hk & Hh). auto.
Qed.

Lemma settled_try_except {A} (p : prog A) (handler : exn → prog A) :
  settled p → (∀ e, settled (handler e)) → settled (try_except p handler).
Proof.
  intros Hp Hh. induction p as [a|e|c|B a k IHk h IHh]; simpl; try done.
  destruct Hp as (Ha & Hg & Hk & Hh'). auto.
Qed.

Lemma settled_mark_folder_as_processed folder : settled (mark_folder_as_processed folder).
Proof.
  unfold mark_folder_as_processed. apply settled_bind.
  - unfold load_processed_folders. apply settled_try_except.
    + simpl. repeat split; try done. intros _. by destruct (py_set _).
    + intros e. by destruct (exn_cls e).
  - intros processed. simpl. repeat split; done.
Qed.

Lemma saves_first_settled unique_id folder rs {A} (p : prog A) w :
  settled p → saves_first unique_id folder rs p w.
Proof.
  revert w. induction p as [a|e|c|B a k IHk h IHh]; intros w Hs; simpl; try done.
  destruct Hs as (Hn & Hg & Hk & Hh). intros w1 _.
  split; [by destruct a|]. split; [intros g Hann; by destruct a|].
  intros [b|e] w2 _; auto.
Qed.

Lemma saves_first_undisturbed unique_id folder rs {A} (p : prog A) w w' :
  saves_first unique_id folder rs p w →
  undisturbed unique_id w w' →
  saves_first unique_id folder rs p w'.
Proof.
  destruct p as [a|e|c|B a k h]; simpl; try done.
  intros H Hund w1 Hund1. apply H. by eapply undisturbed_trans.
Qed.

Lemma decode_events_not_saved g (l : list string) : EvSaved g ∉ map EvDecode l.
Proof.
  change (map EvDecode l) with (EvDecode <$> l). by intros (x & [=] & _)%list_elem_of_fmap.
Qed.

Lemma holds_batch_same_temp unique_id rs w w' :
  temp_dir w' = temp_dir w → holds_batch unique_id rs w → holds_batch unique_id rs w'.
Proof. intros Heq (k & files & Htmp & Hfile). exists k, files. by rewrite Heq. Qed.

Lemma perform_saved {B} (a : action B) w r w' g :
  perform a w = Some (r, w') → saved w' g → saved w g ∨ announces g a.
Proof.
  unfold saved. intros Hp.
  perform_cases a Hp; simpl; try (by left); rewrite elem_of_app; tauto.
Qed.

Lemma perform_ghost_returns {B} (a : action B) w r w' :
  is_ghost a = true → perform a w = Some (r, w') → ∃ b, r = Returns b.
Proof. intros Ha Hp. destruct a; try done. simpl in Hp. simplify_eq. eauto. Qed.

Lemma perform_frame unique_id name {B} (a : action B) w r w' files :
  own_write unique_id a →
  ¬ mine unique_id name →
  perform a w = Some (r, w') →
  temp_dir w = Some files →
  ∃ files', temp_dir w' = Some files' ∧ files' !! name = files !! name.
Proof.
  intros Hown Hname Hp Htmp.
  destruct (temp_neutral a) eqn:Hneutral.
  - rewrite (perform_neutral _ _ _ _ Hneutral Hp). eauto.
  - destruct a; try done; simpl in Hown, Hp; rewrite Htmp in Hp; simplify_eq;
      eexists; (split; [done|]); apply lookup_insert_ne; by intros ->.
Qed.

Section OnDisk.

Context {obj : Type}.
Variables json_dumps py_str : value obj → res string.
Variable dicom_tag_to_dict : string → res (dict (value obj)).

Local Abbreviation worker :=
  (process_folder_and_save_results obj json_dumps py_str dicom_tag_to_dict).
Local Abbreviation collect :=
  (collect_and_process_dicom_data obj json_dumps py_str dicom_tag_to_dict).
Local Abbreviation results_of :=
  (folder_results obj json_dumps py_str dicom_tag_to_dict).
Local Abbreviation stored := (on_disk obj json_dumps py_str dicom_tag_to_dict).

Lemma folder_results_input w w' folder order :
  input w' = input w → results_of w' folder order = results_of w folder order.
Proof. intros Hin. unfold folder_results. by rewrite (lookup_dir_input w w'). Qed.

Lemma saves_first_worker folder processed_folders order unique_id w0 w :
  input w = input w0 →
  saves_first unique_id folder (results_of w0 folder order)
    (worker folder processed_folders order unique_id) w.
Proof.
  intros Hin. unfold process_folder_and_save_results. case_bool_decide as Hnew; [|done].
  unfold process_folder, save_partial_results. cbn [bind act saves_first].
  intros w1 [Hin1 _]. split; [done|]. split; [done|]. intros r w2 Hp. cbn [perform] in Hp.
  rewrite (lookup_dir_input w0 w1) in Hp by congruence.
  unfold folder_results.
  destruct (lookup_dir w0 folder) as [e|] eqn:Hdir; simplify_eq; [|done].
  cbn [saves_first]. intros w3 _. split; [done|].
  split; [intros g Hg; by apply decode_events_not_saved in Hg|].
  intros r w4 Hp. cbn [perform] in Hp. simplify_eq.
  cbn [saves_first]. intros w5 _. split; [done|]. split; [done|].
  intros r w6 Hp. cbn [perform] in Hp. simplify_eq.
  cbn [saves_first]. intros w7 _. split; [done|]. split; [done|].
  intros r w8 Hp. cbn [perform] in Hp.
  destruct (temp_dir w7) as [files|] eqn:Htmp; simplify_eq; [|done].
  cbn [saves_first]. intros w9 _. split; [by eexists|]. split; [done|].
  intros r w10 Hp. cbn [perform] in Hp.
  destruct (temp_dir w9) as [files9|] eqn:Htmp9; simplify_eq; [|done].
  cbn [saves_first]. intros w11 _. split; [by eexists|]. split; [done|].
  intros r w12 Hp. cbn [perform] in Hp.
  destruct (temp_dir w11) as [files11|] eqn:Htmp11; simplify_eq; [|done].
  cbn [saves_first]. intros w13 Hund13. split; [done|]. split.
  - intros g Hg. cbn [announces] in Hg. apply list_elem_of_singleton in Hg as [= ->].
    split; [done|]. split; [|intros; apply settled_mark_folder_as_processed].
    eapply holds_batch_undisturbed; [|exact Hund13].
    eexists _, _. split; [done|]. apply lookup_insert_eq.
  - intros r w14 Hp. cbn [perform] in Hp. simplify_eq.
    apply saves_first_settled, settled_mark_folder_as_processed.
Qed.

Section DiskInvariant.

Variables (folders : list string) (processed_folders : pyset)
          (completion : string → list nat) (uuid4 : string → string) (w0 : world).

(** A file name that no worker of this run writes to. *)
Local Abbreviation foreign name :=
  (∀ f, f ∈ folders → HStr f ∉ processed_folders → ¬ mine (uuid4 f) name).

Local Abbreviation disk_inv futures w :=
  (input w = input w0 ∧
   Forall2 (λ folder p,
              (HStr folder ∈ processed_folders → p = Ret ()) ∧
              saves_first (uuid4 folder) folder
                (results_of w0 folder (completion folder)) p w) folders futures ∧
   (∀ g, saved w g →
         saved w0 g ∨
         ∃ i p, folders !! i = Some g ∧ futures%list !! i = Some p ∧ settled p ∧
                holds_batch (uuid4 g) (results_of w0 g (completion g)) w) ∧
   (∀ files0 name, temp_dir w0 = Some files0 → foreign name →
                   ∃ files, temp_dir w = Some files ∧ files !! name = files0 !! name)).

Lemma disk_inv_init :
  disk_inv (map (λ folder, worker folder processed_folders (completion folder) (uuid4 folder))
                folders) w0.
Proof.
  split; [done|]. split; [|split; [by left|eauto]].
  change (map ?g ?l) with (g <$> l).
  apply Forall2_fmap_r, Forall_Forall2_diag, Forall_forall. intros f _. split.
  - intros Hin. unfold process_folder_and_save_results.
    rewrite bool_decide_eq_false_2; [done|]. by intros Hnot.
  - by apply saves_first_worker.
Qed.

Lemma pool_step_disk_inv i futures w futures' w' :
  NoDup (uuid4 <$> folders) →
  disk_inv futures w →
  pool_step i futures w = Some (futures', w') →
  disk_inv futures' w'.
Proof.
  intros Hnd (Hin & Hall & Hsaved & Hframe) Hstep. unfold pool_step in Hstep.
  destruct (futures !! i) as [p|] eqn:Hi; [|done].
  destruct p as [a0|e0|c0|B a k h]; try done.
  destruct (perform a w) as [[r w2]|] eqn:Hp; [|done].
  destruct (Forall2_lookup_r _ _ _ _ _ Hall Hi) as (folder_i & Hfi & Hskip & Hsf).
  cbn [saves_first] in Hsf.
  destruct (Hsf w (undisturbed_refl _ _)) as (Hown & Hann & Hnext).
  specialize (Hnext _ _ Hp).
  assert (Hnew : HStr folder_i ∉ processed_folders).
  { intros Hold. by specialize (Hskip Hold). }
  assert (Hlen : length folders = length futures) by by eapply Forall2_length.
  assert (Hi' : i < length futures) by by eapply lookup_lt_Some.
  assert (Hdistinct : ∀ j folder, j ≠ i → folders !! j = Some folder →
                                  uuid4 folder ≠ uuid4 folder_i).
  { intros j folder Hji Hfj Heq. apply Hji.
    eapply (NoDup_lookup (uuid4 <$> folders)); [done| |].
    - by rewrite list_lookup_fmap, Hfj.
    - by rewrite list_lookup_fmap, Hfi, Heq. }
  set (p' := match r with Returns b => k b | Raises e => h e end).
  assert (Hfut : futures' = <[i := p']> futures ∧ w' = w2).
  { unfold p'. destruct r; by simplify_eq. }
  destruct Hfut as [-> ->]. clear Hstep.
  assert (Hsf' : saves_first (uuid4 folder_i) folder_i
                   (results_of w0 folder_i (completion folder_i)) p' w2).
  { unfold p'. by destruct r. }
  assert (Hsettled : temp_neutral a = true → is_ghost a = false →
                     (∀ b, settled (k b)) → (∀ e, settled (h e)) → settled p').
  { intros _ _ Hk Hh. unfold p'. destruct r; auto. }
  split; [|split; [|split]].
  - rewrite <- Hin. by eapply perform_input.
  - apply Forall2_same_length_lookup_2; [by rewrite length_insert|].
    intros j folder q Hfj Hqj. destruct (decide (j = i)) as [->|Hji].
    + rewrite list_lookup_insert_eq in Hqj by done. simplify_eq. split; [|done].
      intros Hold. by destruct Hnew.
    + rewrite list_lookup_insert_ne in Hqj by done.
      destruct (Forall2_lookup_lr _ _ _ j _ _ Hall Hfj Hqj) as [Hskipj Hsfj].
      split; [done|]. eapply saves_first_undisturbed; [exact Hsfj|].
      eapply perform_undisturbed; [exact Hown|by eapply Hdistinct|exact Hp].
  - intros g Hg. apply (perform_saved _ _ _ _ _ Hp) in Hg as [Hg|Hg].
    + destruct (Hsaved g Hg) as [?|(j & q & Hfj & Hqj & Hq & Hb)]; [by left|]. right.
      destruct (decide (j = i)) as [->|Hji].
      * simplify_eq. cbn [settled] in Hq. destruct Hq as (Hn & Hgh & Hk & Hh).
        exists i, p'. rewrite list_lookup_insert_eq by done.
        split; [done|]. split; [done|]. split; [by apply Hsettled|].
        eapply holds_batch_same_temp; [|exact Hb]. by eapply perform_neutral.
      * exists j, q. rewrite list_lookup_insert_ne by done.
        split; [done|]. split; [done|]. split; [done|].
        eapply holds_batch_undisturbed; [exact Hb|].
        eapply perform_undisturbed; [exact Hown|by eapply Hdistinct|exact Hp].
    + destruct (Hann g Hg) as (-> & Hb & Hk). right.
      assert (Hghost : is_ghost a = true) by by destruct a.
      destruct (perform_ghost_returns _ _ _ _ Hghost Hp) as [b Hr].
      exists i, p'. rewrite list_lookup_insert_eq by done.
      split; [done|]. split; [done|]. split; [unfold p'; rewrite Hr; apply Hk|].
      eapply holds_batch_same_temp; [|exact Hb].
      eapply perform_neutral; [|exact Hp]. by destruct a.
  - intros files0 name Htmp0 Hname.
    destruct (Hframe files0 name Htmp0 Hname) as (files & Htmp & Hsame).
    destruct (perform_frame (uuid4 folder_i) name a w r w2 files) as (files' & Htmp' & Hsame');
      [done| |done|done|].
    + apply Hname; [by eapply list_elem_of_lookup_2|done].
    + exists files'. by rewrite Hsame'.
Qed.

Lemma run_pool_disk_inv sched futures w :
  NoDup (uuid4 <$> folders) →
  disk_inv futures w →
  disk_inv (run_pool sched futures w).1 (run_pool sched futures w).2.
Proof.
  intros Hnd. revert futures w.
  induction sched as [|i sched IH]; intros futures w Hinv; simpl; [done|].
  destruct (pool_step i futures w) as [[futures' w']|] eqn:Hstep; [|by apply IH].
  apply IH. by eapply pool_step_disk_inv.
Qed.

End DiskInvariant.

(** C1: in every state the worker pool can reach, whatever the schedule,
    the completion orders and the UUIDs, a folder named in the checkpoint
    file has had its partial result file written ([save_partial_results]
    had returned for it); and whenever a step of some worker leaves the
    folder in the checkpoint file, the folder was already saved in the
    state before that step.  A folder that is not in the set loaded at the
    start of a run, saved or not, is processed again: its worker starts by
    listing the folder.  And the results are on disk: when the UUIDs of
    different folders differ, and every folder saved before the run has a
    complete file with its results under a name that carries none of the
    UUIDs of this run, then in every state the pool can reach the temp
    directory holds, for each folder named in the checkpoint file, a
    complete file with the results of that folder.  A crash stops the pool
    in one of these states, so it never leaves a folder marked without its
    results on disk. *)
Theorem result_before_checkpoint
    (folders : list string) (processed_folders : pyset)
    (completion : string → list nat) (uuid4 : string → string)
    (sched : list nat) (w0 : world) :
  checkpoint_safe w0 →
  let futures :=
    map (λ folder, worker folder processed_folders (completion folder) (uuid4 folder))
        folders in
  let state := run_pool sched futures w0 in
  (∀ folder, HStr folder ∈ checkpoint_set state.2 → saved state.2 folder) ∧
  (∀ i futures' w' folder,
     pool_step i state.1 state.2 = Some (futures', w') →
     HStr folder ∈ checkpoint_set w' → saved state.2 folder) ∧
  (∀ folder order unique_id,
     HStr folder ∉ processed_folders →
     ∃ k h, worker folder processed_folders order unique_id
            = Act (OsListdir folder) k h) ∧
  (NoDup (map uuid4 folders) →
   (∀ folder, saved w0 folder →
      ∃ files name order,
        temp_dir w0 = Some files ∧
        files !! name = Some (Batch (results_of w0 folder order)) ∧
        ∀ f, f ∈ folders → HStr f ∉ processed_folders → ¬ mine (uuid4 f) name) →
   ∀ folder, HStr folder ∈ checkpoint_set state.2 → stored state.2 folder).
Proof.
  intros Hsafe0 futures state.
  destruct (pool_checkpoint_order json_dumps py_str dicom_tag_to_dict folders
              processed_folders completion uuid4 sched w0 Hsafe0) as (Hsaved & Hstep & Hredo).
  fold futures in Hsaved, Hstep. fold state in Hsaved, Hstep.
  split; [exact Hsaved|]. split; [exact Hstep|]. split; [exact Hredo|].
  intros Hnd Hdisk folder Hck.
  destruct (run_pool_disk_inv folders processed_folders completion uuid4 w0 sched futures w0
              Hnd (disk_inv_init folders processed_folders completion uuid4 w0))
    as (Hin & _ & Hlogged & Hframe).
  fold state in Hin, Hlogged, Hframe.
  destruct (Hlogged folder (Hsaved folder Hck)) as [Hold|(i & p & _ & _ & _ & Hb)].
  - destruct (Hdisk folder Hold) as (files0 & name & order & Htmp0 & Hfile & Hforeign).
    destruct (Hframe files0 name Htmp0 Hforeign) as (files & Htmp & Hsame).
    exists files, name, order. split; [done|].
    by rewrite Hsame, (folder_results_input w0 state.2).
  - destruct Hb as (index & files & Htmp & Hfile).
    exists files, (part_name index (uuid4 folder)), (completion folder). split; [done|].
    by rewrite (folder_results_input w0 state.2).
Qed.

(** ** Checkpointed folders are skipped *)

Lemma writes_own_settled unique_id {A} (p : prog A) : settled p → writes_own unique_id p.
Proof.
  induction p as [a|e|c|B a k IHk h IHh]; simpl; try done.
  intros (Hn & _ & Hk & Hh). split; [by destruct a|]. auto.
Qed.

Lemma writes_own_worker folder processed_folders order unique_id :
  writes_own unique_id (worker folder processed_folders order unique_id).
Proof.
  unfold process_folder_and_save_results. case_bool_decide; [|done].
  unfold process_folder, save_partial_results. cbn [bind act writes_own].
  split; [done|]. split; [|done]. intros names.
  split; [done|]. split; [|done]. intros _.
  split; [done|]. split; [|done]. intros _.
  split; [done|]. split; [|done]. intros entries.
  split; [by eexists|]. split; [|done]. intros _.
  split; [by eexists|]. split; [|done]. intros _.
  split; [done|]. split; [|done]. intros _.
  apply writes_own_settled, settled_mark_folder_as_processed.
Qed.

Section Frame.

Variables (folders : list string) (processed_folders : pyset)
          (completion : string → list nat) (uuid4 : string → string) (w0 : world).

Local Abbreviation foreign name :=
  (∀ f, f ∈ folders → HStr f ∉ processed_folders → ¬ mine (uuid4 f) name).

Local Abbreviation frame_inv futures w :=
  (Forall2 (λ folder p,
              (HStr folder ∈ processed_folders → p = Ret ()) ∧
              writes_own (uuid4 folder) p) folders futures ∧
   (∀ files0 name, temp_dir w0 = Some files0 → foreign name →
                   ∃ files, temp_dir w = Some files ∧ files !! name = files0 !! name)).

Lemma run_pool_frame sched futures w :
  frame_inv futures w →
  frame_inv (run_pool sched futures w).1 (run_pool sched futures w).2.
Proof.
  revert futures w.
  induction sched as [|i sched IH]; intros futures w Hinv; simpl; [done|].
  destruct (pool_step i futures w) as [[futures' w']|] eqn:Hstep; [|by apply IH].
  apply IH. destruct Hinv as [Hall Hframe]. unfold pool_step in Hstep.
  destruct (futures !! i) as [p|] eqn:Hi; [|done].
  destruct p as [a0|e0|c0|B a k h]; try done.
  destruct (perform a w) as [[r w2]|] eqn:Hp; [|done].
  destruct (Forall2_lookup_r _ _ _ _ _ Hall Hi) as (folder_i & Hfi & Hskip & Hown).
  cbn [writes_own] in Hown. destruct Hown as (Hown & Hk & Hh).
  assert (Hnew : HStr folder_i ∉ processed_folders).
  { intros Hold. by specialize (Hskip Hold). }
  assert (Hi' : i < length futures) by by eapply lookup_lt_Some.
  set (p' := match r with Returns b => k b | Raises e => h e end).
  assert (Hfut : futures' = <[i := p']> futures ∧ w' = w2).
  { unfold p'. destruct r; by simplify_eq. }
  destruct Hfut as [-> ->]. split.
  - apply Forall2_same_length_lookup_2;
      [rewrite length_insert; by eapply Forall2_length|].
    intros j folder q Hfj Hqj. destruct (decide (j = i)) as [->|Hji].
    + rewrite list_lookup_insert_eq in Hqj by done. injection Hqj as <-.
      rewrite Hfi in Hfj. injection Hfj as <-.
      split; [intros Hold; by destruct Hnew|]. unfold p'. by destruct r.
    + rewrite list_lookup_insert_ne in Hqj by done.
      exact (Forall2_lookup_lr _ _ _ j _ _ Hall Hfj Hqj).
  - intros files0 name Htmp0 Hname.
    destruct (Hframe files0 name Htmp0 Hname) as (files & Htmp & Hsame).
    destruct (perform_frame (uuid4 folder_i) name a w r w2 files) as (files' & Htmp' & Hsame');
      [done| |done|done|].
    + apply Hname; [by eapply list_elem_of_lookup_2|done].
    + exists files'. by rewrite Hsame'.
Qed.

End Frame.

(** C9 (as amended): for a folder that is in the checkpoint set loaded at
    the start of the run, [process_folder_and_save_results] is the program
    that returns at once: it has no action at all, so no file is listed or
    decoded, no partial result file is created and the checkpoint file is
    not opened; run alone it leaves every file, the output and the journal
    as they were, and inside the worker pool its future never takes a
    step.  The final table is built from the files that the temp directory
    holds when the merge stage runs, and every file that does not carry
    the UUID of a folder processed in this run holds then what it held at
    the start: a checkpointed folder contributes what the temp directory
    already held for it, be that one file or several. *)
Theorem checkpointed_folder_is_skipped
    (folder : string) (processed_folders : pyset) (order : list nat) (unique_id : string) :
  HStr folder ∈ processed_folders →
  worker folder processed_folders order unique_id = Ret () ∧
  (∀ w, run (worker folder processed_folders order unique_id) w = Ok () w) ∧
  (∀ futures i w,
     futures !! i = Some (worker folder processed_folders order unique_id) →
     pool_step i futures w = None) ∧
  (∀ root_dir o w w' files0 dcm_folders,
     temp_dir w = Some files0 →
     run (find_dcm_folders root_dir) w = Ok dcm_folders w →
     collect root_dir o w = Ok () w' →
     ∃ files,
       output w' =
         match json_names files with
         | [] => output w
         | _ => Some (final_table (merged_rows files))
         end ∧
       ∀ name,
         (∀ f, f ∈ dcm_folders → HStr f ∉ checkpoint_set w → ¬ mine (uuid4 o f) name) →
         files !! name = files0 !! name).
Proof.
  intros Hin.
  assert (Heq : worker folder processed_folders order unique_id = Ret ()).
  { unfold process_folder_and_save_results. rewrite bool_decide_eq_false_2; [done|].
    by intros Hnot. }
  split; [done|]. rewrite Heq. split; [done|]. split.
  { intros futures i w Hi. unfold pool_step. by rewrite Hi. }
  clear. intros root_dir o w w' files0 dcm_folders Htmp0 Hfind Hrun.
  unfold collect_and_process_dicom_data in Hrun.
  assert (Hmk : run create_temp_dir w = Ok () w).
  { unfold create_temp_dir. cbn [run act perform]. by rewrite Htmp0. }
  rewrite run_bind, Hmk in Hrun. cbn [obind] in Hrun.
  rewrite run_bind, Hfind in Hrun. cbn [obind] in Hrun.
  rewrite run_bind in Hrun.
  destruct (run load_processed_folders w) as [s w1|?|?|?] eqn:Hload; try done.
  apply run_load_ok in Hload as [-> ->]. cbn [obind run fst snd] in Hrun.
  set (futures := map _ dcm_folders) in Hrun.
  assert (Hinit : Forall2 (λ f p, (HStr f ∈ checkpoint_set w → p = Ret ()) ∧
                                  writes_own (uuid4 o f) p) dcm_folders futures).
  { unfold futures. change (map ?g ?l) with (g <$> l).
    apply Forall2_fmap_r, Forall_Forall2_diag, Forall_forall. intros f _. split.
    - intros Hold. unfold process_folder_and_save_results.
      rewrite bool_decide_eq_false_2; [done|]. by intros Hnot.
    - apply writes_own_worker. }
  destruct (run_pool_frame dcm_folders (checkpoint_set w) (uuid4 o) w (schedule o) futures w)
    as [_ Hframe].
  { split; [exact Hinit|]. intros files name Htmp _. eauto. }
  assert (Hkeep : nothing_lost w (run_pool (schedule o) futures w).2).
  { apply run_pool_nothing_lost, Forall_forall. intros p. unfold futures.
    change (map ?g ?l) with (g <$> l).
    intros (f & -> & _)%list_elem_of_fmap. apply only_adds_worker. }
  destruct Hkeep as (_ & Hout & _).
  destruct (run_pool (schedule o) futures w) as [futures' w2]. cbn [fst snd] in Hframe, Hout.
  destruct (results futures') as [[[]|?]|]; try done.
  destruct (temp_dir w2) as [files|] eqn:Htmp2.
  2:{ by rewrite run_merge_none in Hrun. }
  rewrite (run_merge_some _ files) in Hrun by done. injection Hrun as <-.
  exists files. split.
  - by destruct (json_names files).
  - intros name Hname. destruct (Hframe files0 name Htmp0 Hname) as (files' & Htmp' & Hsame).
    by simplify_eq.
Qed.

End OnDisk.

Lemma result_before_checkpoint_witness :
  checkpoint_safe race_world ∧
  let state := run_pool race_schedule (race_futures ∅) race_world in
  checkpoint_safe state.2 ∧
  ∀ folder, HStr folder ∈ checkpoint_set state.2 →
            on_disk unit demo_dumps demo_str demo_decoder state.2 folder.
Proof.
  assert (H0 : checkpoint_safe race_world).
  { intros folder Hin. by apply elem_of_empty in Hin. }
  split; [exact H0|].
  destruct (result_before_checkpoint demo_dumps demo_str demo_decoder
              ["/data/a"; "/data/b"] ∅ (λ _, [])
              (λ folder, if String.eqb folder "/data/a" then "1f0e" else "77c2")
              race_schedule race_world H0) as (Hsaved & _ & _ & Hdisk).
  split; [exact Hsaved|]. apply Hdisk.
  - apply NoDup_cons. split; [|apply NoDup_singleton].
    intros Hin%list_elem_of_singleton. discriminate.
  - intros folder Hin. by apply elem_of_nil in Hin.
Defined.

Lemma checkpointed_folder_is_skipped_witness :
  run (process_folder_and_save_results unit demo_dumps demo_str demo_decoder
         "/data/s1" {[HStr "/data/s1"]} [] "0b5e")
      demo_world
  = Ok () demo_world.
Proof.
  refine (proj1 (proj2 (checkpointed_folder_is_skipped demo_dumps demo_str demo_decoder
            "/data/s1" {[HStr "/data/s1"]} [] "0b5e" _)) demo_world).
  apply elem_of_singleton. reflexivity.
Defined.

(** C9 as stated fails.  A run saved the results of [/data/a] and was
    interrupted before it marked the folder (seven steps of its worker,
    from a fresh temp directory); the next run saved them again, marked
    the folder and was interrupted in turn.  In the run after that the
    folder is in the checkpoint set and is skipped, and both files are
    merged: the one row of the folder is in the final table twice. *)
Lemma checkpointed_folder_contributes_twice :
  (run_pool (replicate 7 0)
     [process_folder_and_save_results unit demo_dumps demo_str demo_decoder
        "/data/a" ∅ [] "1f0e"] race_world).2
  = interrupted_world ∧
  run (process_folder_and_save_results unit demo_dumps demo_str demo_decoder
         "/data/a" ∅ [] "9c3d") interrupted_world
  = Ok () twice_saved_world ∧
  HStr "/data/a" ∈ checkpoint_set twice_saved_world ∧
  ∃ w',
    collect_and_process_dicom_data unit demo_dumps demo_str demo_decoder "/data"
      (Oracle (replicate 20 1) (λ _, []) (λ _, "77c2")) twice_saved_world = Ok () w' ∧
    output w' =
      Some [Series "SOP Class UID (0008, 0016)"
              [Some "1.2.840"; Some "1.2.840"; Some "1.2.840"];
            Series "DicomPath"
              [Some "/data/a/x.dcm"; Some "/data/b/y.dcm"; Some "/data/a/x.dcm"]].
Proof.
  split; [vm_compute; reflexivity|]. split; [vm_compute; reflexivity|]. split.
  - unfold checkpoint_set, twice_saved_world. cbn [checkpoint].
    rewrite doc_set_json_of_set. by apply elem_of_singleton.
  - eexists. split; [vm_compute; reflexivity|]. vm_compute. reflexivity.
Qed.
